(** * Climb detection on an elevation profile

    A shallow embedding of the climb detector of the profile generator
    ([detectClimbs] and its helpers [smoothElevationForClimbDetection],
    [categorizeClimb], [generateClimbName] and [mergeNearbyClimbs]) and the
    properties its specification states about it.

    Numbers.  The source computes on JavaScript numbers.  The embedding is
    written once, over an interface [Number] that lists the operations the
    source applies to numbers, and is read at two instances:
    - [Q_Number]: exact rational arithmetic.  The properties that need facts
      of arithmetic (order, monotonicity of subtraction, means) are proved at
      this instance; it does not model rounding, infinities or NaN.
    - [Float_Number]: IEEE 754 binary64 with round-to-nearest-even, the
      arithmetic a JavaScript engine performs; the code is evaluated at it,
      and the facts about tracks without a climb are proved at it from the
      specification of its operations.
    Properties that rest on the control flow alone are proved for every
    instance, hence for both.

    Arrays.  An array is a list, an index a natural number.  A read [a[i]]
    is a lookup that may fail: the source throws when it reads a field of an
    element that is not there.  Every function therefore returns an [option],
    [None] standing for a thrown error, and the properties below include that
    [None] is never returned. *)

From Stdlib Require Import ZArith QArith Qround Lqa String.
From Stdlib Require Import PrimFloat SpecFloat FloatOps FloatAxioms.
From stdpp Require Import base option list sorting.

Set Default Proof Using "Type".

(** ** Numbers *)

Declare Scope num_scope.
Delimit Scope num_scope with num.

Class Number (num : Type) : Type := {
  lit : Q -> num;             (* a numeric literal of the source *)
  add : num -> num -> num;
  sub : num -> num -> num;
  mul : num -> num -> num;
  div : num -> num -> num;
  ltb : num -> num -> bool;   (* [a < b] *)
  leb : num -> num -> bool;   (* [a <= b] *)
  round : num -> num;         (* [Math.round] *)
}.

Notation "x + y" := (add x y) : num_scope.
Notation "x - y" := (sub x y) : num_scope.
Notation "x * y" := (mul x y) : num_scope.
Notation "x / y" := (div x y) : num_scope.
Notation "x <? y" := (ltb x y) : num_scope.
Notation "x <=? y" := (leb x y) : num_scope.
Notation "x >? y" := (ltb y x) (at level 70, no associativity, only parsing)
  : num_scope.
Notation "x >=? y" := (leb y x) (at level 70, no associativity, only parsing)
  : num_scope.

(** *** Exact arithmetic *)

Definition Qltb (a b : Q) : bool :=
  (Qnum a * QDen b <? Qnum b * QDen a)%Z.

Definition Qround (a : Q) : Q := inject_Z (Qfloor (a + (1 # 2))).

#[export] Instance Q_Number : Number Q := {|
  lit q := q;
  add := Qplus;
  sub := Qminus;
  mul := Qmult;
  div := Qdiv;
  ltb := Qltb;
  leb := Qle_bool;
  round := Qround;
|}.

(** *** Binary64 arithmetic *)

Module F64.

Fixpoint of_pos (p : positive) : float :=
  match p with
  | xH => PrimFloat.one
  | xO p' => PrimFloat.mul PrimFloat.two (of_pos p')
  | xI p' => PrimFloat.add (PrimFloat.mul PrimFloat.two (of_pos p')) PrimFloat.one
  end.

Definition of_Z (z : Z) : float :=
  match z with
  | Z0 => PrimFloat.zero
  | Zpos p => of_pos p
  | Zneg p => PrimFloat.opp (of_pos p)
  end.

(* The double nearest to the literal [n/d], for [n] and [d] below 2^53:
   both are then exact and the division rounds once. *)
Definition of_Q (q : Q) : float :=
  PrimFloat.div (of_Z (Qnum q)) (of_pos (Qden q)).

Definition two52 : float := Eval compute in of_Z (2 ^ 52).

(* [Math.round]: the nearest integer, ties towards +infinity.  Adding and
   subtracting 2^52 yields the nearest integer with ties to even; a tie that
   went down is moved up; a zero result takes the sign of [x].  From 2^52 on
   every double is an integer, and NaN fails the first test. *)
Definition round (x : float) : float :=
  if PrimFloat.ltb (PrimFloat.abs x) two52 then
    let r :=
      if PrimFloat.leb PrimFloat.zero x
      then PrimFloat.sub (PrimFloat.add x two52) two52
      else PrimFloat.add (PrimFloat.sub x two52) two52 in
    let n :=
      if PrimFloat.eqb (PrimFloat.sub x r) (of_Q (1 # 2))
      then PrimFloat.add r PrimFloat.one
      else r in
    if PrimFloat.eqb n PrimFloat.zero then PrimFloat.mul x PrimFloat.zero
    else n
  else x.

End F64.

#[export] Instance Float_Number : Number float := {|
  lit := F64.of_Q;
  add := PrimFloat.add;
  sub := PrimFloat.sub;
  mul := PrimFloat.mul;
  div := PrimFloat.div;
  ltb := PrimFloat.ltb;
  leb := PrimFloat.leb;
  round := F64.round;
|}.

(** ** Error handling and loops *)

(** [for (let i = start; i < start + count; i++) body], threading the state
    the body updates; a failing read in the body aborts the loop. *)
Fixpoint forLoop {St : Type} (body : nat -> St -> option St)
    (count i : nat) (s : St) : option St :=
  match count with
  | O => Some s
  | S count' => s' ← body i s; forLoop body count' (S i) s'
  end.

(** ** Data model *)

Inductive Category : Type := HC | Cat1 | Cat2 | Cat3 | Cat4.

Section Detector.

Context {num : Type} `{Number num}.

Local Open Scope num_scope.

(* An element of the input array: [{ distance: number; elevation: number }]. *)
Record Point : Type := {
  distance : num;
  elevation : num;
}.

(* The template literal [`${nameType} ${elevationSuffix}m`], kept as its two
   interpolated parts. *)
Record ClimbName : Type := {
  nameType : string;
  elevationSuffix : num;
}.

Record ClimbSegment : Type := {
  startDistance : num;
  endDistance : num;
  startElevation : num;
  endElevation : num;
  length : num;
  elevationGain : num;
  averageGradient : num;
  score : num;
  category : option Category;   (* [None] is the source's [null] *)
  peakDistance : num;
  peakElevation : num;
  name : ClimbName;
}.

(** ** Smoother *)

Definition windowSize : nat := 3.

(* An index used as a number. *)
Definition ofNat (n : nat) : num := lit (inject_Z (Z.of_nat n)).

(* [for (let j = ...; j <= i + windowSize; j++) sum += points[j].elevation] *)
Fixpoint windowSum (points : list Point) (count j : nat) (sum : num)
    : option num :=
  match count with
  | O => Some sum
  | S count' =>
      p ← points !! j;
      windowSum points count' (S j) (sum + elevation p)
  end.

Definition smoothStep (points : list Point) (i : nat)
    (smoothed : list Point) : option (list Point) :=
  sum ← windowSum points (i + windowSize + 1 - (i - windowSize))
                  (i - windowSize) (lit 0);
  p ← points !! i;
  Some (<[i := {| distance := distance p;
                  elevation := sum / (ofNat windowSize * lit 2 + lit 1) |}]>
          smoothed).

Definition smoothElevationForClimbDetection (points : list Point)
    : option (list Point) :=
  if (List.length points <? 5)%nat then Some points
  else
    let smoothed := points in
    forLoop (smoothStep points)
            (List.length points - windowSize - windowSize) windowSize
            smoothed.

(** ** Categories and names *)

Definition categorizeClimb (score : num) : option Category :=
  if score >=? lit 600 then Some HC
  else if score >=? lit 300 then Some Cat1
  else if score >=? lit 150 then Some Cat2
  else if score >=? lit 75 then Some Cat3
  else if score >? lit 0 then Some Cat4
  else None.

Definition climbTypes : list string :=
  ["Col"; "Côte"; "Mont"; "Pic"; "Sommet"; "Montée"; "Puy"; "Roc"; "Butte";
   "Crête"]%string.

Definition generateClimbName (elevation length gradient : num) : ClimbName :=
  let nameType : string :=
    if elevation >? lit 1500 then "Col"%string
    else if elevation >? lit 1000 then "Mont"%string
    else if gradient >? lit 10 then "Montée"%string
    else if length >? lit 10 then "Col"%string
    else "Côte"%string in
  let elevationSuffix := round (elevation / lit 100) * lit 100 in
  {| nameType := nameType; elevationSuffix := elevationSuffix |}.

(** ** Merger *)

Definition minDistanceBetweenClimbs : num := lit 2.

(* One iteration of the loop of [mergeNearbyClimbs]. *)
Definition mergeStep (climbs : list ClimbSegment) (i : nat)
    (merged : list ClimbSegment) : option (list ClimbSegment) :=
  currentClimb ← climbs !! i;
  r ← (if (0 <? List.length merged)%nat then
         lastClimb ← merged !! (List.length merged - 1)%nat;
         let distanceBetween :=
           startDistance currentClimb - endDistance lastClimb in
         if distanceBetween <? minDistanceBetweenClimbs then
           Some (if score currentClimb >? score lastClimb
                 then <[(List.length merged - 1)%nat := currentClimb]> merged
                 else merged,
                 true)
         else Some (merged, false)
       else Some (merged, false));
  let '(merged, shouldMerge) := r in
  Some (if negb shouldMerge then merged ++ [currentClimb] else merged).

Definition mergeNearbyClimbs (climbs : list ClimbSegment)
    : option (list ClimbSegment) :=
  if (List.length climbs <=? 1)%nat then Some climbs
  else forLoop (mergeStep climbs) (List.length climbs) 0 [].

(** ** Segmenter *)

Definition minClimbLength : num := lit 0.5.
Definition minElevationGain : num := lit 30.
Definition gradientThreshold : num := lit 3.

(* The local variables of [detectClimbs] that its loop updates. *)
Record ScanState : Type := {
  climbs : list ClimbSegment;
  climbStart : option num;
  climbStartElevation : option num;
  currentElevation : num;
  isClimbing : bool;
}.

(* The peak look-ahead: [for (let j = i; j < Math.min(i + 20, n); j++)],
   leaving the loop at [break]. *)
Fixpoint peakScan (smoothedPoints : list Point) (count j : nat)
    (peakDistance peakElevation : num) : option (num * num) :=
  match count with
  | O => Some (peakDistance, peakElevation)
  | S count' =>
      p ← smoothedPoints !! j;
      if elevation p >? peakElevation then
        peakScan smoothedPoints count' (S j) (distance p) (elevation p)
      else if elevation p <? peakElevation - lit 10 then
        Some (peakDistance, peakElevation)
      else peakScan smoothedPoints count' (S j) peakDistance peakElevation
  end.

(* The per-pair gradient computed at the top of the loop body. *)
Definition pairGradient (prevPoint point : Point) : num :=
  let elevationChange := elevation point - elevation prevPoint in
  let distance := distance point - distance prevPoint in
  if distance >? lit 0
  then (elevationChange / (distance * lit 1000)) * lit 100
  else lit 0.

(* The body of [if (climbStart !== null && climbStartElevation !== null)]:
   the climbs array after the window closing at index [i] was examined. *)
Definition closeClimb (smoothedPoints : list Point) (i : nat) (point : Point)
    (climbStart climbStartElevation : num) (climbs : list ClimbSegment)
    : option (list ClimbSegment) :=
  let climbEnd := distance point in
  let climbEndElevation := elevation point in
  let climbLength := climbEnd - climbStart in
  let elevationGain := climbEndElevation - climbStartElevation in
  if (climbLength >=? minClimbLength) && (elevationGain >=? minElevationGain)
  then
    let averageGradient := (elevationGain / (climbLength * lit 1000)) * lit 100 in
    if averageGradient >=? gradientThreshold then
      peak ← peakScan smoothedPoints
               (Nat.min (i + 20) (List.length smoothedPoints) - i) i
               climbEnd climbEndElevation;
      let '(peakDistance, peakElevation) := peak in
      let score := climbLength * (averageGradient * averageGradient) in
      let category := categorizeClimb score in
      Some (climbs ++ [{|
        startDistance := climbStart;
        endDistance := climbEnd;
        startElevation := climbStartElevation;
        endElevation := climbEndElevation;
        length := climbLength;
        elevationGain := elevationGain;
        averageGradient := averageGradient;
        score := score;
        category := category;
        peakDistance := peakDistance;
        peakElevation := peakElevation;
        name := generateClimbName peakElevation climbLength averageGradient;
      |}])
    else Some climbs
  else Some climbs.

(* One iteration of the main loop of [detectClimbs]. *)
Definition scanStep (smoothedPoints : list Point) (i : nat) (st : ScanState)
    : option ScanState :=
  point ← smoothedPoints !! i;
  prevPoint ← smoothedPoints !! (i - 1)%nat;
  let gradient := pairGradient prevPoint point in
  st' ←
    (if negb (isClimbing st) && (gradient >? gradientThreshold) then
       Some {| climbs := climbs st;
               climbStart := Some (distance prevPoint);
               climbStartElevation := Some (elevation prevPoint);
               currentElevation := currentElevation st;
               isClimbing := true |}
     else if isClimbing st
             && ((gradient <? gradientThreshold)
                 || (i =? List.length smoothedPoints - 1)%nat) then
       climbs' ←
         match climbStart st, climbStartElevation st with
         | Some climbStart, Some climbStartElevation =>
             closeClimb smoothedPoints i point climbStart climbStartElevation
                        (climbs st)
         | _, _ => Some (climbs st)
         end;
       Some {| climbs := climbs';
               climbStart := None;
               climbStartElevation := None;
               currentElevation := currentElevation st;
               isClimbing := false |}
     else Some st);
  Some {| climbs := climbs st';
          climbStart := climbStart st';
          climbStartElevation := climbStartElevation st';
          currentElevation := elevation point;
          isClimbing := isClimbing st' |}.

Definition detectClimbs (elevationPoints : list Point)
    : option (list ClimbSegment) :=
  if (List.length elevationPoints <? 10)%nat then Some []
  else
    first ← elevationPoints !! 0%nat;
    smoothedPoints ← smoothElevationForClimbDetection elevationPoints;
    st ← forLoop (scanStep smoothedPoints)
           (List.length smoothedPoints - 1) 1
           {| climbs := [];
              climbStart := None;
              climbStartElevation := None;
              currentElevation := elevation first;
              isClimbing := false |};
    mergeNearbyClimbs (climbs st).

End Detector.

(** * The track smoother of the GPX parser

    [parseGPX] hands the points it read to [smoothElevationData] and returns
    the result as [elevationPoints]; the page passes these to [detectClimbs].
    The reading of the document itself (DOM queries, [parseFloat], the
    haversine formula) is outside this development. *)

Module GpxParser.

Section Smoothing.

Context {num : Type} `{Number num}.

Local Open Scope num_scope.

Record ElevationPoint : Type := {
  distance : num;
  elevation : num;
  latitude : num;
  longitude : num;
}.

Definition windowSize : nat := 5.

(* [for (let j = ...; j <= i + windowSize; j++) sum += points[j].elevation] *)
Fixpoint windowSum (points : list ElevationPoint) (count j : nat) (sum : num)
    : option num :=
  match count with
  | O => Some sum
  | S count' =>
      p ← points !! j;
      windowSum points count' (S j) (sum + elevation p)
  end.

Definition smoothStep (points : list ElevationPoint) (i : nat)
    (smoothed : list ElevationPoint) : option (list ElevationPoint) :=
  sum ← windowSum points (i + windowSize + 1 - (i - windowSize))
                  (i - windowSize) (lit 0);
  p ← points !! i;
  Some (<[i := {| distance := distance p;
                  elevation := sum / (ofNat windowSize * lit 2 + lit 1);
                  latitude := latitude p;
                  longitude := longitude p |}]>
          smoothed).

Definition smoothElevationData (points : list ElevationPoint)
    : option (list ElevationPoint) :=
  if (List.length points <? 3)%nat then Some points
  else
    let smoothed := points in
    forLoop (smoothStep points)
            (List.length points - windowSize - windowSize) windowSize
            smoothed.

(* An [ElevationPoint] where [{ distance: number; elevation: number }] is
   expected: [detectClimbs] reads these two fields only. *)
Definition asPoint (p : ElevationPoint) : @Point num :=
  Build_Point (distance p) (elevation p).

End Smoothing.

End GpxParser.

(** * The automatic labels of the page

    After [detectClimbs] the upload handler of the page turns the climbs of
    category 3 and harder into labels. *)

#[export] Instance Category_eq_dec : EqDecision Category.
Proof. solve_decision. Defined.

Module Page.

Section Labels.

Context {num : Type} `{Number num}.

(* [climb.category] and [climb.name], read before the label fields of the
   same names come into scope. *)
Definition categoryOf (climb : @ClimbSegment num) : option Category :=
  category climb.

Definition nameOf (climb : @ClimbSegment num) : @ClimbName num := name climb.

(* The [name] of an automatic label is the name of its climb. *)
Record LabelPoint : Type := {
  id : string;
  distance : num;
  elevation : num;
  name : @ClimbName num;
  category : option Category;   (* [None] is an absent property *)
  customX : option num;
  customY : option num;
}.

(* [climb.category && ["HC", "1", "2", "3"].includes(climb.category)] *)
Definition isSignificant (climb : @ClimbSegment num) : bool :=
  match categoryOf climb with
  | Some category => bool_decide (category ∈ [HC; Cat1; Cat2; Cat3])
  | None => false
  end.

(* [climbs.filter(...).map(...)]; [freshId] stands for the identifiers the
   callback draws from the clock and the random generator, by position. *)
Definition autoLabels (freshId : nat -> string) (climbs : list (@ClimbSegment num))
    : list LabelPoint :=
  imap (fun index climb =>
          {| id := freshId index;
             distance := peakDistance climb;
             elevation := peakElevation climb;
             name := nameOf climb;
             category := categoryOf climb;
             customX := None;
             customY := None |})
       (List.filter isSignificant climbs).

End Labels.

End Page.

(** * Auxiliary definitions

    Closed forms of what the loops compute, used to state the properties. *)

Section Auxiliary.

Context {num : Type} `{Number num}.
Local Open Scope num_scope.

Implicit Types (points smoothed : list (@Point num)) (p : @Point num).
Implicit Types (merged : list (@ClimbSegment num)) (c : @ClimbSegment num).

(* The left-to-right sum the inner loop of the smoother accumulates. *)
Definition sumElevations (window : list Point) (sum : num) : num :=
  fold_left (fun acc p => acc + elevation p) window sum.

(* The value written at an interior index. *)
Definition windowMean points (i : nat) : num :=
  sumElevations (take 7 (drop (i - 3) points)) (lit 0)
  / (ofNat windowSize * lit 2 + lit 1).

Definition interior (n i : nat) : bool :=
  (3 <=? i)%nat && (i + 3 <? n)%nat.

(* The smoothed array after the loop reached index [k]. *)
Definition smoothedUpTo points (k i : nat) p : Point :=
  if interior (List.length points) i && (i <? k)%nat
  then {| distance := distance p; elevation := windowMean points i |}
  else p.

Definition smoothedAt points (i : nat) p : Point :=
  if interior (List.length points) i
  then {| distance := distance p; elevation := windowMean points i |}
  else p.

(* What one iteration of the merge loop does with the candidate it reads. *)
Definition mergeOne merged (currentClimb : ClimbSegment)
    : list ClimbSegment :=
  match last merged with
  | Some lastClimb =>
      if startDistance currentClimb - endDistance lastClimb
         <? minDistanceBetweenClimbs
      then if score currentClimb >? score lastClimb
           then removelast merged ++ [currentClimb]
           else merged
      else merged ++ [currentClimb]
  | None => merged ++ [currentClimb]
  end.

(* The gates a closed window has to pass: [prevPoint] is the point the window
   opened at, [point] the one it closed at. *)
Definition qualifies (prevPoint point : Point) : bool :=
  let climbLength := distance point - distance prevPoint in
  let elevationGain := elevation point - elevation prevPoint in
  (climbLength >=? minClimbLength) && (elevationGain >=? minElevationGain)
  && ((elevationGain / (climbLength * lit 1000)) * lit 100
      >=? gradientThreshold).

(* The record pushed for a window that passed the gates. *)
Definition candidate (prevPoint point : Point) (peak : num * num)
    : ClimbSegment :=
  let climbLength := distance point - distance prevPoint in
  let elevationGain := elevation point - elevation prevPoint in
  let averageGradient := (elevationGain / (climbLength * lit 1000)) * lit 100 in
  let score := climbLength * (averageGradient * averageGradient) in
  {| startDistance := distance prevPoint;
     endDistance := distance point;
     startElevation := elevation prevPoint;
     endElevation := elevation point;
     length := climbLength;
     elevationGain := elevationGain;
     averageGradient := averageGradient;
     score := score;
     category := categorizeClimb score;
     peakDistance := fst peak;
     peakElevation := snd peak;
     name := generateClimbName (snd peak) climbLength averageGradient |}.

(* [c] is the segment emitted for the window opened at index [s] and closed
   at index [i] of the smoothed points. *)
Definition Emitted smoothed (s i : nat) c : Prop :=
  exists prevPoint point peak,
    smoothed !! s = Some prevPoint /\ smoothed !! i = Some point /\
    qualifies prevPoint point = true /\
    peakScan smoothed (Nat.min (i + 20) (List.length smoothed) - i) i
             (distance point) (elevation point) = Some peak /\
    c = candidate prevPoint point peak.

(* The segments emitted so far, in scan order: each window opens at or after
   the index the previous one closed at, and closes later than it opens.
   The index is the one the last window closed at. *)
Inductive Candidates smoothed : list ClimbSegment -> nat -> Prop :=
| Candidates_nil : Candidates smoothed [] 0
| Candidates_snoc cs b s i c :
    Candidates smoothed cs b -> b <= s -> s < i ->
    Emitted smoothed s i c ->
    Candidates smoothed (cs ++ [c]) i.

(* The invariant of the main loop of [detectClimbs] at the head of the
   iteration with index [i]. *)
Definition ScanInv smoothed (i : nat) (st : ScanState) : Prop :=
  exists b, Candidates smoothed (climbs st) b /\ b <= i - 1 /\
    (isClimbing st = true ->
     exists s prevPoint, b <= s /\ s < i /\
       smoothed !! s = Some prevPoint /\
       climbStart st = Some (distance prevPoint) /\
       climbStartElevation st = Some (elevation prevPoint)).

(* The input contract on distances: they never decrease along the track. *)
Definition NonDecreasing points : Prop :=
  forall i p q, points !! i = Some p -> points !! S i = Some q ->
    (distance p <=? distance q) = true.

(* The test the merger applies to the last kept segment [a] and the next
   candidate [b]. *)
Definition tooClose (a b : ClimbSegment) : bool :=
  startDistance b - endDistance a <? minDistanceBetweenClimbs.

(* Number of consecutive pairs of a list the merger would call too close. *)
Fixpoint closePairs (l : list ClimbSegment) : nat :=
  match l with
  | a :: tl =>
      match tl with
      | b :: _ => (if tooClose a b then 1 else 0) + closePairs tl
      | [] => 0
      end
  | [] => 0
  end.

(* [mergeOne] on an accumulator kept in reverse, last kept segment first. *)
Definition mergeOneR (kept : list ClimbSegment) c : list ClimbSegment :=
  match kept with
  | [] => [c]
  | l :: kept' =>
      if tooClose l c
      then if score c >? score l then c :: kept' else kept
      else c :: kept
  end.

(* No two neighbours of a reversed accumulator are too close. *)
Fixpoint SpacedR (kept : list ClimbSegment) : Prop :=
  match kept with
  | b :: tl =>
      match tl with
      | a :: _ => tooClose a b = false /\ SpacedR tl
      | [] => True
      end
  | [] => True
  end.

(* The merger as the specification words it: one step of the accumulator
   [kept] on the next candidate.  The gap is measured from the end of the
   last kept segment to the start of the candidate. *)
Definition keepStep (kept : list ClimbSegment) (candidate : ClimbSegment)
    : list ClimbSegment :=
  match last kept with
  | None => kept ++ [candidate]
  | Some lastKept =>
      if startDistance candidate - endDistance lastKept >=? lit 2
      then kept ++ [candidate]
      else if score candidate >? score lastKept
           then removelast kept ++ [candidate]
           else kept
  end.

(* The peak look-ahead, step by step: the update of the running maximum at a
   scanned point, the running maximum after a run of scanned points, and the
   test that ends the scan. *)
Definition peakUpdate (peak : num * num) p : num * num :=
  if elevation p >? snd peak then (distance p, elevation p) else peak.

Definition runningPeak (start : num * num) (scanned : list Point)
    : num * num :=
  fold_left peakUpdate scanned start.

Definition dropsBelow (peak : num * num) p : bool :=
  negb (elevation p >? snd peak) && (elevation p <? snd peak - lit 10).

(* No pair of neighbours is steeper than the threshold. *)
Definition NoSteepPair smoothed : Prop :=
  forall i prevPoint point,
    smoothed !! i = Some prevPoint -> smoothed !! S i = Some point ->
    (pairGradient prevPoint point >? gradientThreshold) = false.

(* The input contract on distances as a test. *)
Fixpoint nonDecreasingb points : bool :=
  match points with
  | p :: tl =>
      match tl with
      | q :: _ => (distance p <=? distance q) && nonDecreasingb tl
      | [] => true
      end
  | [] => true
  end.

End Auxiliary.

(** ** Order on segments, in exact arithmetic *)

Definition startLe (a b : @ClimbSegment Q) : Prop :=
  (startDistance a <= startDistance b)%Q.

Definition startLt (a b : @ClimbSegment Q) : Prop :=
  (startDistance a < startDistance b)%Q.

(** ** Peak refinement, in exact arithmetic *)

(* What the peak look-ahead guarantees for a returned segment [c]: the scan
   starts at the index [i] the window closed at, reads the first [k] points of
   the window of at most 20 points that starts there (the closing point and up
   to 19 after it), keeps the running maximum of their elevations together
   with the distance it is reached at, and stops before the end of the window
   exactly at the first point lying more than 10 m below the running
   maximum. *)
Definition PeakRefined (smoothed : list (@Point Q)) (c : @ClimbSegment Q)
    : Prop :=
  exists (i : nat) (point : @Point Q) (k : nat),
    let window := take 20 (drop i smoothed) in
    let peakAfter m :=
      runningPeak (distance point, elevation point) (take m window) in
    smoothed !! i = Some point /\
    endDistance c = distance point /\ endElevation c = elevation point /\
    window !! 0%nat = Some point /\
    1 <= k <= List.length window /\ k <= 20 /\
    (peakDistance c, peakElevation c) = peakAfter k /\
    (forall m p, m < k -> window !! m = Some p ->
       ~ (elevation p < snd (peakAfter m) - 10)%Q) /\
    (k < List.length window ->
     exists p, window !! k = Some p /\
       (elevation p < snd (peakAfter k) - 10)%Q) /\
    Forall (fun p => (elevation p <= peakElevation c)%Q) (take k window) /\
    (exists m p, m < k /\ smoothed !! (i + m)%nat = Some p /\
       distance p = peakDistance c /\ elevation p = peakElevation c).

(** ** Reading elevations by index *)

(* The elevation of the sample at index [j]; the default is never used at an
   index within the array. *)
Definition elevationAt (points : list (@Point Q)) (j : nat) : Q :=
  from_option elevation 0%Q (points !! j).

(** * Sample inputs *)

(* [n] elevations starting at [e] and changing by [rise] per sample. *)
Fixpoint ramp (n : nat) (e rise : Q) : list Q :=
  match n with
  | O => []
  | S n' => e :: ramp n' (Qred (e + rise)) rise
  end.

(* The track with the given elevations, sampled every [step] km from km 0. *)
Definition trackOf {num : Type} `{Number num} (step : Q) (elevations : list Q)
    : list (@Point num) :=
  imap (fun i e =>
          {| distance := lit (Qred (inject_Z (Z.of_nat i) * step));
             elevation := lit e |})
       elevations.

(* 9 samples: too short to be analysed. *)
Definition shortProfile : list Q := ramp 9 100 20.

(* A flat 20 km track at 250 m. *)
Definition flatProfile : list Q := ramp 81 250 0.

(* A flat track at an elevation of 2^61 - 768 m, a double with 53
   significant bits, for which the sum of 7 copies is rounded. *)
Definition extremeFlatProfile : list Q :=
  ramp 30 (inject_Z (2 ^ 61 - 768)) 0.

(* 2 km flat, 5 km at 8 percent, 3 km flat. *)
Definition singleClimbProfile : list Q :=
  ramp 8 100 0 ++ ramp 20 100 20 ++ ramp 13 500 0.

(* Three climbs: 3 km at 8 percent, after 1 km of gentle descent 3 km at
   10 percent, and after 10 km of gentle descent 3 km at 6 percent. *)
Definition threeClimbProfile : list Q :=
  ramp 8 100 0 ++ ramp 12 100 20 ++ ramp 4 340 (-5) ++ ramp 12 320 25
  ++ ramp 40 620 (-2) ++ ramp 12 540 15 ++ ramp 9 720 0.

(* A candidate for the merger, given by what the merger reads. *)
Definition segment (startDistance endDistance score : Q) : @ClimbSegment Q :=
  {| startDistance := startDistance;
     endDistance := endDistance;
     startElevation := 0%Q;
     endElevation := 0%Q;
     length := (endDistance - startDistance)%Q;
     elevationGain := 0%Q;
     averageGradient := 0%Q;
     score := score;
     category := categorizeClimb score;
     peakDistance := endDistance;
     peakElevation := 0%Q;
     name := {| nameType := "Col"; elevationSuffix := 0%Q |} |}.

(* Four candidates: the second unseats the first, the third is dropped and
   the fourth is far enough to be kept. *)
Definition fourCandidates : list (@ClimbSegment Q) :=
  [segment 0 3 100; segment 4 7 200; segment 8 9 150; segment 15 18 50].

(* Candidates that are not ordered by start distance. *)
Definition unorderedCandidates : list (@ClimbSegment Q) :=
  [segment 0 1 1; segment 5 6 1; segment 1.5 2 5].

(* A track outside the input contract: after a climb of 6 km the recorded
   distance falls back to km 5 while the elevation still rises. *)
Definition backtrackingTrack : list (@Point Q) :=
  map (fun '(d, e) => {| distance := d; elevation := e |})
    [(0, 0); (1, 100); (2, 200); (3, 300); (4, 400); (5, 500); (6, 600);
     (6, 600); (5, 700); (5, 700); (5, 700); (5, 700)]%Q.

(* What an example shows of a segment: where it starts and ends, its
   category and where its peak lies. *)
Definition summary (c : @ClimbSegment Q) : Q * Q * option Category * Q * Q :=
  (Qred (startDistance c), Qred (endDistance c), category c,
   Qred (peakDistance c), Qred (peakElevation c)).

(** * Definitions for further properties *)

(* Every segment of [seen] is matched by one of [kept] that scores at least
   as much. *)
Definition Dominated (seen kept : list (@ClimbSegment Q)) : Prop :=
  forall x, x ∈ seen -> exists k, k ∈ kept /\ (score x <= score k)%Q.

(** ** The track smoother of the GPX parser *)

Section TrackAuxiliary.

Context {num : Type} `{Number num}.
Local Open Scope num_scope.

Implicit Types (points : list (@GpxParser.ElevationPoint num))
               (p : @GpxParser.ElevationPoint num).

(* The left-to-right sum the inner loop accumulates. *)
Definition trackSum (window : list GpxParser.ElevationPoint) (sum : num)
    : num :=
  fold_left (fun acc p => acc + GpxParser.elevation p) window sum.

(* The 11 samples centred on index [i]. *)
Definition trackWindow points (i : nat) : list GpxParser.ElevationPoint :=
  take 11 (drop (i - 5) points).

(* The value written at an interior index. *)
Definition trackMean points (i : nat) : num :=
  trackSum (trackWindow points i) (lit 0)
  / (ofNat GpxParser.windowSize * lit 2 + lit 1).

Definition trackInterior (n i : nat) : bool :=
  (5 <=? i)%nat && (i + 5 <? n)%nat.

Definition trackSmoothed points (i : nat) p : GpxParser.ElevationPoint :=
  {| GpxParser.distance := GpxParser.distance p;
     GpxParser.elevation := trackMean points i;
     GpxParser.latitude := GpxParser.latitude p;
     GpxParser.longitude := GpxParser.longitude p |}.

(* The smoothed array after the loop reached index [k]. *)
Definition trackSmoothedUpTo points (k i : nat) p : GpxParser.ElevationPoint :=
  if trackInterior (List.length points) i && (i <? k)%nat
  then trackSmoothed points i p
  else p.

Definition trackSmoothedAt points (i : nat) p : GpxParser.ElevationPoint :=
  if trackInterior (List.length points) i then trackSmoothed points i p else p.

End TrackAuxiliary.

(* The sum of a list of rationals. *)
Definition total (l : list Q) : Q := foldr Qplus 0%Q l.

(** ** More sample inputs *)

(* Three candidates, each 2 km after the one before it. *)
Definition spacedCandidates : list (@ClimbSegment Q) :=
  [segment 0 3 100; segment 5 7 50; segment 9 12 200].

(* 20 samples that alternate between 100 m and 125 m. *)
Definition undulatingProfile : list Q :=
  concat (replicate 10 [100; 125]%Q).

(* 12 samples that rise by 20 m each, 40 m apart: 0.44 km at 50 percent. *)
Definition steepShortProfile : list Q := ramp 12 0 20.

(* A track as the parser reads it, sampled every [step] km from km 0, all
   on the equator at longitude 0. *)
Definition gpxTrackOf (step : Q) (elevations : list Q)
    : list (@GpxParser.ElevationPoint Q) :=
  imap (fun i e =>
          {| GpxParser.distance := Qred (inject_Z (Z.of_nat i) * step);
             GpxParser.elevation := e;
             GpxParser.latitude := 0%Q;
             GpxParser.longitude := 0%Q |})
       elevations.

(* A flat track of [n] samples at elevation [e] as the parser reads it,
   sampled every 0.25 km, in either arithmetic. *)
Definition gpxFlatTrack {num : Type} `{Number num} (n : nat) (e : Q)
    : list (@GpxParser.ElevationPoint num) :=
  imap (fun i e =>
          {| GpxParser.distance := lit (Qred (inject_Z (Z.of_nat i) * (1 # 4)));
             GpxParser.elevation := lit e;
             GpxParser.latitude := lit 0;
             GpxParser.longitude := lit 0 |})
       (replicate n e).

(** ** Tracks without a climb *)

Section LevelAuxiliary.

Context {num : Type} `{Number num}.
Local Open Scope num_scope.

(* The value the smoother writes at an interior index when the 7 elevations
   of the window all equal [e]: the sum is accumulated from 0, left to
   right, then divided by [windowSize * 2 + 1]. *)
Definition meanOfEqual (e : num) : num :=
  (lit 0 + e + e + e + e + e + e + e) / (ofNat windowSize * lit 2 + lit 1).

(* The same for the track smoother of the GPX parser and its window of 11
   elevations. *)
Definition trackMeanOfEqual (e : num) : num :=
  Nat.iter 11 (fun sum => sum + e) (lit 0)
  / (ofNat GpxParser.windowSize * lit 2 + lit 1).

(* No point of [later] lies 30 m or more above [start], as the segmenter
   tests it. *)
Definition gainsBelow (start : @Point num) (later : list (@Point num))
    : bool :=
  forallb (fun point =>
             negb (elevation point - elevation start >=? minElevationGain))
          later.

(* No point lies 30 m or more above an earlier one. *)
Fixpoint noGainb (smoothed : list (@Point num)) : bool :=
  match smoothed with
  | [] => true
  | start :: later => gainsBelow start later && noGainb later
  end.

End LevelAuxiliary.

(** * Verification *)

(** Case analysis on the index comparisons of a goal. *)
Ltac nat_cases :=
  repeat match goal with
  | |- context [(?a <=? ?b)%nat] => destruct (Nat.leb_spec a b)
  | |- context [(?a <? ?b)%nat] => destruct (Nat.ltb_spec a b)
  | |- context [(?a =? ?b)%nat] => destruct (Nat.eqb_spec a b)
  end; cbn; try lia; try done.

(** ** Loops *)

(** The invariant rule for [forLoop]: a body that never fails under the
    invariant and re-establishes it runs to completion. *)
Lemma forLoop_invariant {St : Type} (Inv : nat -> St -> Prop)
    (body : nat -> St -> option St) (count i : nat) (s : St) :
  Inv i s ->
  (forall k t, i <= k < i + count -> Inv k t ->
     exists t', body k t = Some t' /\ Inv (S k) t') ->
  exists s', forLoop body count i s = Some s' /\ Inv (i + count) s'.
Proof.
  revert i s. induction count as [|count IH]; intros i s Hi Hbody.
  - exists s. rewrite Nat.add_0_r. done.
  - destruct (Hbody i s) as (t & Ht & HIt); [lia | done |].
    destruct (IH (S i) t) as (s' & Hs' & HIs'); [done | |].
    + intros k u Hk. apply Hbody. lia.
    + exists s'. cbn. rewrite Ht. cbn.
      replace (i + S count) with (S i + count) by lia. done.
Qed.

(** ** Smoother *)

Section Smoother.

Context {num : Type} `{Number num}.
Local Open Scope num_scope.

Implicit Types (points smoothed : list (@Point num)) (p : @Point num).

Lemma windowSum_fold points count j sum :
  j + count <= List.length points ->
  windowSum points count j sum
  = Some (sumElevations (take count (drop j points)) sum).
Proof.
  revert j sum. induction count as [|count IH]; intros j sum Hj.
  - by rewrite take_0.
  - destruct (lookup_lt_is_Some_2 points j) as [p Hp]; [lia|].
    cbn. rewrite Hp. cbn. rewrite IH by lia.
    rewrite (drop_S _ _ _ Hp). done.
Qed.

Lemma smoothStep_spec points k :
  3 <= k -> k + 3 < List.length points ->
  smoothStep points k (imap (smoothedUpTo points k) points)
  = Some (imap (smoothedUpTo points (S k)) points).
Proof.
  intros Hk Hn. unfold smoothStep, windowSize.
  replace (k + 3 + 1 - (k - 3))%nat with 7%nat by lia.
  rewrite windowSum_fold by lia. cbn.
  destruct (lookup_lt_is_Some_2 points k) as [p Hp]; [lia|].
  rewrite Hp. cbn. f_equal. apply list_eq. intros i.
  rewrite list_lookup_insert, length_imap, !list_lookup_imap.
  destruct (decide (k = i ∧ k < List.length points)) as [[-> _]|Hne].
  - rewrite Hp. cbn. unfold smoothedUpTo, interior. by nat_cases.
  - destruct (points !! i) as [q|] eqn:Hq; [cbn|done].
    f_equal. unfold smoothedUpTo, interior.
    assert (i <> k) by (intros ->; apply Hne; split; [done|lia]).
    by nat_cases.
Qed.

Lemma smoothedUpTo_start points :
  imap (smoothedUpTo points 3) points = points.
Proof.
  apply list_eq. intros i. rewrite list_lookup_imap.
  destruct (points !! i) as [q|]; [cbn|done].
  f_equal. unfold smoothedUpTo, interior. by nat_cases.
Qed.

Lemma smoothedUpTo_end points k :
  List.length points <= k + 3 ->
  imap (smoothedUpTo points k) points = imap (smoothedAt points) points.
Proof.
  intros Hk. apply list_eq. intros i. rewrite !list_lookup_imap.
  destruct (points !! i) as [q|]; [cbn|done].
  f_equal. unfold smoothedUpTo, smoothedAt, interior. by nat_cases.
Qed.

(** The smoother never fails, and its result is described index by index
    by [smoothedAt]. *)
Lemma smooth_spec points :
  smoothElevationForClimbDetection points
  = Some (imap (smoothedAt points) points).
Proof.
  unfold smoothElevationForClimbDetection.
  destruct (Nat.ltb_spec (List.length points) 5) as [Hn|Hn].
  - f_equal. rewrite <- (smoothedUpTo_end points 3) by (unfold windowSize; lia).
    by rewrite smoothedUpTo_start.
  - destruct (forLoop_invariant
      (fun k sm => sm = imap (smoothedUpTo points k) points)
      (smoothStep points) (List.length points - windowSize - windowSize)
      windowSize points) as (sm & Hsm & ->).
    + by rewrite smoothedUpTo_start.
    + intros k t Hk ->. eexists. split; [|done].
      apply smoothStep_spec; unfold windowSize in *; lia.
    + rewrite Hsm. f_equal. apply smoothedUpTo_end. unfold windowSize. lia.
Qed.
End Smoother.

(** ** Merger *)

Section Merger.

Context {num : Type} `{Number num}.
Local Open Scope num_scope.

Implicit Types (climbs merged : list (@ClimbSegment num))
               (c : @ClimbSegment num).

Lemma mergeStep_spec climbs i merged c :
  climbs !! i = Some c ->
  mergeStep climbs i merged = Some (mergeOne merged c).
Proof.
  intros Hc. unfold mergeStep, mergeOne. rewrite Hc. cbn.
  destruct merged as [|l merged _] using rev_ind. { cbn. reflexivity. }
  rewrite last_snoc, length_app, Nat.add_1_r. cbn [List.length Nat.ltb Nat.leb].
  replace (S (List.length merged) - 1)%nat with (List.length merged + 0)%nat by lia.
  rewrite lookup_app_r, Nat.add_0_r, Nat.sub_diag by lia. cbn.
  destruct (_ <? minDistanceBetweenClimbs); cbn; [|done].
  destruct (ltb (score l) (score c)); [|done].
  rewrite <- (Nat.add_0_r (List.length merged)), insert_app_r.
  by rewrite removelast_last.
Qed.

(** The merger never fails; it folds [mergeOne] over the candidates. *)
Lemma merge_fold climbs :
  mergeNearbyClimbs climbs = Some (fold_left mergeOne climbs []).
Proof.
  unfold mergeNearbyClimbs.
  destruct (Nat.leb_spec (List.length climbs) 1) as [Hn|Hn].
  - destruct climbs as [|c [|c' climbs]]; cbn in *; try done; lia.
  - destruct (forLoop_invariant
      (fun k merged => merged = fold_left mergeOne (take k climbs) [])
      (mergeStep climbs) (List.length climbs) 0 []) as (m & Hm & ->).
    + by rewrite take_0.
    + intros k t Hk ->.
      destruct (lookup_lt_is_Some_2 climbs k) as [c Hc]; [lia|].
      exists (mergeOne (fold_left mergeOne (take k climbs) []) c).
      split; [by apply mergeStep_spec|].
      by rewrite (take_S_r _ _ _ Hc), fold_left_app.
    + rewrite Hm. by rewrite take_ge by (cbn; lia).
Qed.

(** An iteration looks at the last kept segment only: what was kept before
    it is carried along unchanged. *)
Lemma mergeOne_prefix merged l c :
  mergeOne (merged ++ [l]) c = merged ++ mergeOne [l] c.
Proof.
  unfold mergeOne. rewrite last_snoc, removelast_last. cbn.
  destruct (_ <? minDistanceBetweenClimbs).
  - by destruct (score c >? score l).
  - by rewrite <- app_assoc.
Qed.

Lemma mergeOne_sublist merged seen c :
  merged `sublist_of` seen ->
  mergeOne merged c `sublist_of` seen ++ [c].
Proof.
  intros Hsub. unfold mergeOne.
  destruct merged as [|l merged _] using rev_ind; [by apply sublist_app|].
  rewrite last_snoc, removelast_last.
  destruct (_ <? minDistanceBetweenClimbs).
  - destruct (score c >? score l).
    + apply sublist_app; [|done]. etrans; [|exact Hsub].
      by apply sublist_inserts_r.
    + by apply sublist_inserts_r.
  - by apply sublist_app.
Qed.

Lemma merge_fold_sublist climbs merged seen :
  merged `sublist_of` seen ->
  fold_left mergeOne climbs merged `sublist_of` seen ++ climbs.
Proof.
  revert merged seen. induction climbs as [|c climbs IH]; intros merged seen Hsub.
  - by rewrite app_nil_r.
  - cbn. rewrite (cons_middle c seen climbs), app_assoc.
    apply IH. by apply mergeOne_sublist.
Qed.

(** The kept segments are candidates, in their original order. *)
Lemma merge_sublist climbs :
  fold_left mergeOne climbs [] `sublist_of` climbs.
Proof. apply (merge_fold_sublist climbs [] []). done. Qed.

End Merger.

Section MergerOrder.

Context {num : Type} `{Number num}.
Local Open Scope num_scope.

Implicit Types (merged kept : list (@ClimbSegment num)) (c : @ClimbSegment num).

Lemma mergeOne_rev merged c :
  mergeOne merged c = rev (mergeOneR (rev merged) c).
Proof.
  unfold mergeOne, mergeOneR, tooClose.
  destruct merged as [|l merged _] using rev_ind; [done|].
  rewrite last_snoc, removelast_last, rev_unit.
  destruct (_ <? minDistanceBetweenClimbs).
  - destruct (ltb (score l) (score c)); cbn.
    + by rewrite rev_involutive.
    + by rewrite rev_involutive.
  - cbn. by rewrite rev_involutive.
Qed.

Lemma merge_fold_rev climbs merged :
  fold_left mergeOne climbs merged
  = rev (fold_left mergeOneR climbs (rev merged)).
Proof.
  revert merged. induction climbs as [|c climbs IH]; intros merged; cbn.
  - by rewrite rev_involutive.
  - rewrite IH. by rewrite mergeOne_rev, rev_involutive.
Qed.

Lemma closePairs_snoc (l : list ClimbSegment) a b :
  closePairs ((l ++ [a]) ++ [b])
  = (closePairs (l ++ [a]) + (if tooClose a b then 1 else 0))%nat.
Proof.
  induction l as [|x l IH]; [cbn; lia|].
  cbn [app]. change (closePairs (x :: ?t)) with
    (match t with b :: _ => ((if tooClose x b then 1 else 0) + closePairs t)%nat | [] => 0%nat end).
  destruct l as [|y l]; cbn [app] in *; [cbn; lia|].
  rewrite IH. lia.
Qed.

Lemma SpacedR_closePairs kept :
  SpacedR kept -> closePairs (rev kept) = 0%nat.
Proof.
  induction kept as [|b kept IH]; [done|].
  destruct kept as [|a kept]; [done|].
  intros [Hab Hsp]. specialize (IH Hsp).
  cbn [rev] in *. by rewrite closePairs_snoc, IH, Hab.
Qed.

(** A spaced list is left alone by the merger. *)
Lemma SpacedR_merge_fixed kept :
  SpacedR kept -> fold_left mergeOne (rev kept) [] = rev kept.
Proof.
  induction kept as [|b kept IH]; [done|].
  intros Hsp. cbn [rev]. rewrite fold_left_app. cbn [fold_left].
  rewrite IH by (destruct kept; [done|apply Hsp]).
  rewrite mergeOne_rev, rev_involutive.
  destruct kept as [|a kept]; [done|].
  destruct Hsp as [Hab _]. unfold mergeOneR. by rewrite Hab.
Qed.

End MergerOrder.

(** ** Segmenter *)

Section Segmenter.

Context {num : Type} `{Number num}.
Local Open Scope num_scope.

Implicit Types (smoothed : list (@Point num)) (p : @Point num).
Implicit Types (st : @ScanState num) (c : @ClimbSegment num).

Lemma peakScan_total smoothed count j pd pe :
  j + count <= List.length smoothed ->
  is_Some (peakScan smoothed count j pd pe).
Proof.
  revert j pd pe. induction count as [|count IH]; intros j pd pe Hj; [by eexists|].
  destruct (lookup_lt_is_Some_2 smoothed j) as [p Hp]; [lia|].
  cbn. rewrite Hp. cbn.
  destruct (ltb pe (elevation p)); [apply IH; lia|].
  destruct (ltb (elevation p) (pe - lit 10)); [by eexists|apply IH; lia].
Qed.

Lemma closeClimb_spec smoothed i prevPoint point cs :
  i < List.length smoothed ->
  closeClimb smoothed i point (distance prevPoint) (elevation prevPoint) cs
  = if qualifies prevPoint point
    then peak ← peakScan smoothed
                  (Nat.min (i + 20) (List.length smoothed) - i) i
                  (distance point) (elevation point);
         Some (cs ++ [candidate prevPoint point peak])
    else Some cs.
Proof.
  intros Hi. unfold closeClimb, qualifies.
  destruct (leb minClimbLength _); cbn; [|done].
  destruct (leb minElevationGain _); cbn; [|done].
  destruct (leb gradientThreshold _); cbn; [|done].
  destruct (peakScan _ _ _ _ _) as [[pd pe]|]; done.
Qed.

Lemma closeClimb_inv smoothed i s prevPoint point cs b :
  smoothed !! s = Some prevPoint -> smoothed !! i = Some point ->
  Candidates smoothed cs b -> b <= s -> s < i ->
  exists cs' b',
    closeClimb smoothed i point (distance prevPoint) (elevation prevPoint) cs
    = Some cs' /\ Candidates smoothed cs' b' /\ b' <= i.
Proof.
  intros Hs Hi Hcs Hb Hsi.
  assert (i < List.length smoothed) as Hlt by by eapply lookup_lt_Some.
  rewrite closeClimb_spec by done.
  destruct (qualifies prevPoint point) eqn:Hq.
  - destruct (peakScan_total smoothed
      (Nat.min (i + 20) (List.length smoothed) - i) i
      (distance point) (elevation point)) as [peak Hpeak]; [lia|].
    rewrite Hpeak. cbn. eexists _, i. split; [done|]. split; [|done].
    eapply Candidates_snoc; [done..|].
    by exists prevPoint, point, peak.
  - exists cs, b. split; [done|]. split; [done|lia].
Qed.

Lemma scanStep_inv smoothed i st :
  1 <= i < List.length smoothed ->
  ScanInv smoothed i st ->
  exists st', scanStep smoothed i st = Some st' /\ ScanInv smoothed (S i) st'.
Proof.
  intros Hi (b & Hcs & Hb & Hopen). unfold scanStep.
  destruct (lookup_lt_is_Some_2 smoothed i) as [point Hpt]; [lia|].
  destruct (lookup_lt_is_Some_2 smoothed (i - 1)) as [prevPoint Hprev]; [lia|].
  rewrite Hpt, Hprev. cbn.
  destruct (isClimbing st) eqn:Hcl; cbn.
  - destruct Hopen as (s & ps & Hbs & Hsi & Hps & Hstart & Hstarte); [done|].
    destruct (_ || _).
    + rewrite Hstart, Hstarte.
      destruct (closeClimb_inv smoothed i s ps point (climbs st) b)
        as (cs' & b' & Hclose & Hcs' & Hb'); [done..|].
      rewrite Hclose. cbn. eexists. split; [done|].
      exists b'. cbn. split; [done|]. split; [lia|done].
    + eexists. split; [done|]. exists b. cbn. split; [done|]. split; [lia|].
      intros _. exists s, ps. repeat split; try done; lia.
  - destruct (ltb gradientThreshold _).
    + eexists. split; [done|]. exists b. cbn. split; [done|]. split; [lia|].
      intros _. exists (i - 1)%nat, prevPoint. repeat split; try done; lia.
    + eexists. split; [done|]. exists b. cbn. split; [done|]. split; [lia|].
      rewrite Hcl. done.
Qed.

(** The main loop never fails, and what it collects are emitted candidates
    in scan order. *)
Lemma scan_spec smoothed st0 :
  climbs st0 = [] -> isClimbing st0 = false ->
  exists st b,
    forLoop (scanStep smoothed) (List.length smoothed - 1) 1 st0 = Some st
    /\ Candidates smoothed (climbs st) b.
Proof.
  intros Hcs Hcl.
  destruct (forLoop_invariant (ScanInv smoothed) (scanStep smoothed)
    (List.length smoothed - 1) 1 st0) as (st & Hst & b & Hb & _).
  - exists 0%nat. rewrite Hcs, Hcl. split; [constructor|]. split; [lia|done].
  - intros k t Hk. apply scanStep_inv. lia.
  - by exists st, b.
Qed.

(** [detectClimbs] never fails: it merges the candidates the scan of the
    smoothed points emits. *)
Lemma detectClimbs_spec (elevationPoints : list (@Point num)) :
  exists cands b,
    Candidates (imap (smoothedAt elevationPoints) elevationPoints) cands b
    /\ detectClimbs elevationPoints = Some (fold_left mergeOne cands []).
Proof.
  unfold detectClimbs.
  destruct (Nat.ltb_spec (List.length elevationPoints) 10) as [Hn|Hn].
  - exists [], 0%nat. split; [constructor|done].
  - destruct (lookup_lt_is_Some_2 elevationPoints 0) as [first Hfirst]; [lia|].
    rewrite Hfirst, smooth_spec. cbn.
    edestruct (scan_spec (imap (smoothedAt elevationPoints) elevationPoints))
      as (st & b & Hst & Hcands); [..|rewrite Hst]; [done..|].
    cbn. exists (climbs st), b. split; [done|apply merge_fold].
Qed.

(** No input makes [detectClimbs] throw. *)
Lemma detectClimbs_total (elevationPoints : list (@Point num)) :
  is_Some (detectClimbs elevationPoints).
Proof.
  destruct (detectClimbs_spec elevationPoints) as (cands & b & _ & Hout).
  by eexists.
Qed.

End Segmenter.

Section Derived.

Context {num : Type} `{Number num}.
Local Open Scope num_scope.

Lemma Emitted_score (smoothed : list (@Point num)) s i c :
  Emitted smoothed s i c ->
  category c = categorizeClimb (score c) /\
  score c = length c * (averageGradient c * averageGradient c).
Proof. by intros (ps & pi & peak & _ & _ & _ & _ & ->). Qed.

Lemma mergeStep_prefix (climbs kept : list (@ClimbSegment num)) i l :
  mergeStep climbs i (kept ++ [l]) = (kept ++.) <$> mergeStep climbs i [l].
Proof.
  destruct (climbs !! i) as [c|] eqn:Hc.
  - rewrite !(mergeStep_spec _ _ _ c) by done. cbn. f_equal.
    apply mergeOne_prefix.
  - unfold mergeStep. by rewrite Hc.
Qed.

End Derived.

(** ** Peak look-ahead *)

Section PeakScan.

Context {num : Type} `{Number num}.
Local Open Scope num_scope.
Implicit Types (smoothed : list (@Point num)) (p : @Point num).

Lemma peakUpdate_up (peak : num * num) p :
  (elevation p >? snd peak) = true ->
  peakUpdate peak p = (distance p, elevation p).
Proof. unfold peakUpdate. by intros ->. Qed.

Lemma peakUpdate_keep (peak : num * num) p :
  (elevation p >? snd peak) = false -> peakUpdate peak p = peak.
Proof. unfold peakUpdate. by intros ->. Qed.

Lemma runningPeak_cons (start : num * num) p (scanned : list Point) :
  runningPeak start (p :: scanned) = runningPeak (peakUpdate start p) scanned.
Proof. done. Qed.

Lemma peakScan_spec smoothed count j pd pe :
  j + count <= List.length smoothed ->
  exists k, k <= count /\
    peakScan smoothed count j pd pe
    = Some (runningPeak (pd, pe) (take k (take count (drop j smoothed)))) /\
    (forall m p, m < k ->
       take count (drop j smoothed) !! m = Some p ->
       dropsBelow (runningPeak (pd, pe) (take m (take count (drop j smoothed)))) p
       = false) /\
    (k < count ->
     exists p, take count (drop j smoothed) !! k = Some p /\
       dropsBelow (runningPeak (pd, pe) (take k (take count (drop j smoothed)))) p
       = true).
Proof.
  revert j pd pe. induction count as [|count IH]; intros j pd pe Hj.
  { exists 0%nat. split; [done|]. split; [done|]. split; intros; lia. }
  destruct (lookup_lt_is_Some_2 smoothed j) as [p Hp]; [lia|].
  rewrite (drop_S _ _ _ Hp). cbn [take peakScan]. rewrite Hp. cbn [mbind option_bind].
  destruct (ltb pe (elevation p)) eqn:Hup.
  - destruct (IH (S j) (distance p) (elevation p)) as (k & Hk & Hscan & Hbefore & Hstop);
      [lia|].
    pose proof (peakUpdate_up (pd, pe) p Hup) as Hupd.
    exists (S k). split; [lia|]. split; [|split].
    + rewrite Hscan. cbn [take]. by rewrite runningPeak_cons, Hupd.
    + intros [|m] q Hm Hq.
      * injection Hq as <-. unfold dropsBelow. cbn. by rewrite Hup.
      * cbn [take]. rewrite runningPeak_cons, Hupd. apply Hbefore; [lia|done].
    + intros Hlt. destruct Hstop as (q & Hq & Hdrop); [lia|].
      exists q. split; [done|]. cbn [take]. by rewrite runningPeak_cons, Hupd.
  - pose proof (peakUpdate_keep (pd, pe) p Hup) as Hupd.
    destruct (ltb (elevation p) (pe - lit 10)) eqn:Hdrop.
    + exists 0%nat. split; [lia|]. split; [done|]. split; [intros; lia|].
      intros _. exists p. split; [done|]. unfold dropsBelow. cbn.
      by rewrite Hup, Hdrop.
    + destruct (IH (S j) pd pe) as (k & Hk & Hscan & Hbefore & Hstop); [lia|].
      exists (S k). split; [lia|]. split; [|split].
      * rewrite Hscan. cbn [take]. by rewrite runningPeak_cons, Hupd.
      * intros [|m] q Hm Hq.
        -- injection Hq as <-. unfold dropsBelow. cbn. by rewrite Hup, Hdrop.
        -- cbn [take]. rewrite runningPeak_cons, Hupd. apply Hbefore; [lia|done].
      * intros Hlt. destruct Hstop as (q & Hq & Hd); [lia|].
        exists q. split; [done|]. cbn [take]. by rewrite runningPeak_cons, Hupd.
Qed.

(* The bound [Math.min(i + 20, n)] cuts the same window as taking up to 20
   points from index [i] on. *)
Lemma lookahead_window smoothed i :
  take (Nat.min (i + 20) (List.length smoothed) - i) (drop i smoothed)
  = take 20 (drop i smoothed).
Proof.
  destruct (Nat.le_gt_cases (i + 20) (List.length smoothed)) as [Hle|Hgt].
  - by replace (Nat.min (i + 20) (List.length smoothed) - i)%nat with 20%nat by lia.
  - rewrite !take_ge; [done| |]; rewrite length_drop; lia.
Qed.

End PeakScan.

(** ** Exact arithmetic *)

Lemma Qltb_lt (a b : Q) : Qltb a b = true <-> (a < b)%Q.
Proof. unfold Qltb, Qlt. apply Z.ltb_lt. Qed.

Lemma Qltb_ge (a b : Q) : Qltb a b = false <-> (b <= a)%Q.
Proof. unfold Qltb, Qle. apply Z.ltb_ge. Qed.

Lemma Qleb_le (a b : Q) : Qle_bool a b = true <-> (a <= b)%Q.
Proof. apply Qle_bool_iff. Qed.

Lemma Qleb_gt (a b : Q) : Qle_bool a b = false <-> (b < a)%Q.
Proof.
  rewrite <- not_true_iff_false, Qleb_le. split.
  - apply Qnot_le_lt.
  - apply Qlt_not_le.
Qed.

(** Turns the comparisons of the exact instance into order facts. *)
Ltac q_reflect :=
  cbn [lit add sub mul div ltb leb Q_Number] in *;
  repeat match goal with
  | H : Qltb _ _ = true |- _ => apply Qltb_lt in H
  | H : Qltb _ _ = false |- _ => apply Qltb_ge in H
  | H : Qle_bool _ _ = true |- _ => apply Qleb_le in H
  | H : Qle_bool _ _ = false |- _ => apply Qleb_gt in H
  | |- Qltb _ _ = true => apply Qltb_lt
  | |- Qltb _ _ = false => apply Qltb_ge
  | |- Qle_bool _ _ = true => apply Qleb_le
  | |- Qle_bool _ _ = false => apply Qleb_gt
  end.

Section ExactMerger.

Local Open Scope Q_scope.
Implicit Types (kept cs : list (@ClimbSegment Q)) (c : @ClimbSegment Q).

Lemma tooClose_mono (a b c : @ClimbSegment Q) :
  tooClose a b = false -> startLe b c -> tooClose a c = false.
Proof.
  unfold tooClose, startLe, minDistanceBetweenClimbs. intros Hab Hbc.
  q_reflect. lra.
Qed.

Lemma mergeOneR_spaced kept c :
  SpacedR kept ->
  (forall l, head kept = Some l -> startLe l c) ->
  SpacedR (mergeOneR kept c).
Proof.
  intros Hsp Hhd. unfold mergeOneR.
  destruct kept as [|l kept]; [done|].
  destruct (tooClose l c) eqn:Hlc; [|done].
  destruct (ltb (score l) (score c)); [|done].
  destruct kept as [|a kept]; [done|].
  destruct Hsp as [Hal Hsp]. split; [|done].
  eapply tooClose_mono; [done|]. by apply Hhd.
Qed.

Lemma mergeOneR_head kept c cs :
  (forall l, head kept = Some l -> Forall (startLe l) (c :: cs)) ->
  Forall (startLe c) cs ->
  forall l, head (mergeOneR kept c) = Some l -> Forall (startLe l) cs.
Proof.
  intros Hhd Hc l. unfold mergeOneR.
  destruct kept as [|k kept]; [by intros [= <-]|].
  assert (Forall (startLe k) cs) as Hk.
  { specialize (Hhd k eq_refl). by inversion Hhd. }
  destruct (tooClose k c); [destruct (ltb (score k) (score c))|];
    cbn; by intros [= <-].
Qed.

Lemma merge_foldR_spaced cs kept :
  StronglySorted startLe cs ->
  SpacedR kept ->
  (forall l, head kept = Some l -> Forall (startLe l) cs) ->
  SpacedR (fold_left mergeOneR cs kept).
Proof.
  revert kept. induction cs as [|c cs IH]; intros kept Hsorted Hsp Hhd; [done|].
  apply StronglySorted_cons in Hsorted as [Hc Hsorted].
  cbn. apply IH; [done| |].
  - apply mergeOneR_spaced; [done|].
    intros l Hl. specialize (Hhd l Hl). by inversion Hhd.
  - by apply mergeOneR_head.
Qed.

(** Over candidates ordered by start distance the merger keeps a list in
    which no two neighbours are too close. *)
Lemma merge_spaced cs :
  StronglySorted startLe cs ->
  exists kept, fold_left mergeOne cs [] = rev kept /\ SpacedR kept.
Proof.
  intros Hsorted. exists (fold_left mergeOneR cs []). split.
  - apply (merge_fold_rev cs []).
  - by apply merge_foldR_spaced.
Qed.

End ExactMerger.

(** ** Order of the emitted segments *)

Lemma StronglySorted_sublist {A} (R : relation A) (l k : list A) :
  l `sublist_of` k -> StronglySorted R k -> StronglySorted R l.
Proof.
  induction 1 as [|x l k Hsub IH|x l k Hsub IH]; intros Hk; [done|..].
  - apply StronglySorted_cons in Hk as [Hx Hk].
    apply StronglySorted_cons. split; [|by apply IH].
    apply Forall_forall. intros y Hy. rewrite Forall_forall in Hx.
    apply Hx. by eapply elem_of_sublist.
  - apply StronglySorted_cons in Hk as [_ Hk]. by apply IH.
Qed.

Lemma StronglySorted_weaken {A} (R R' : relation A) (l : list A) :
  (forall x y, R x y -> R' x y) -> StronglySorted R l -> StronglySorted R' l.
Proof.
  intros HR. induction 1 as [|x l Hl IH Hx]; constructor; [done|].
  eapply Forall_impl; [done|]. intros y. apply HR.
Qed.

Section Distances.

Context {num : Type} `{Number num}.
Implicit Types (points : list (@Point num)).

Lemma smoothedAt_distance points i p :
  distance (smoothedAt points i p) = distance p.
Proof. unfold smoothedAt. by destruct (interior _ _). Qed.

Lemma NonDecreasing_smoothed points :
  NonDecreasing points -> NonDecreasing (imap (smoothedAt points) points).
Proof.
  intros Hmono i p q. rewrite !list_lookup_imap.
  destruct (points !! i) as [p'|] eqn:Hp; [|done].
  destruct (points !! S i) as [q'|] eqn:Hq; [|done].
  cbn. intros [= <-] [= <-]. rewrite !smoothedAt_distance. by eapply Hmono.
Qed.

End Distances.

Section ExactSegmenter.

Local Open Scope Q_scope.
Implicit Types (smoothed : list (@Point Q)) (cs : list (@ClimbSegment Q)).

Lemma NonDecreasing_le smoothed i j p q :
  NonDecreasing smoothed -> (i <= j)%nat ->
  smoothed !! i = Some p -> smoothed !! j = Some q ->
  distance p <= distance q.
Proof.
  intros Hmono Hij Hp. revert q. induction Hij as [|j Hij IH]; intros q Hq.
  - assert (p = q) as -> by congruence. apply Qle_refl.
  - destruct (lookup_lt_is_Some_2 smoothed j) as [r Hr].
    { apply lookup_lt_Some in Hq. lia. }
    specialize (IH r Hr). specialize (Hmono j r q Hr Hq). q_reflect. lra.
Qed.

Lemma qualifies_gates (prevPoint point : @Point Q) :
  qualifies prevPoint point = true ->
  1 # 2 <= distance point - distance prevPoint /\
  30 <= elevation point - elevation prevPoint /\
  3 <= (elevation point - elevation prevPoint)
       / ((distance point - distance prevPoint) * 1000) * 100.
Proof.
  unfold qualifies, minClimbLength, minElevationGain, gradientThreshold.
  intros Hq. apply andb_prop in Hq as [Hq H3]. apply andb_prop in Hq as [H1 H2].
  q_reflect. repeat split; try done. lra.
Qed.

Lemma Candidates_order smoothed cs b :
  NonDecreasing smoothed -> Candidates smoothed cs b ->
  StronglySorted startLt cs /\
  Forall (fun c => forall pb, smoothed !! b = Some pb ->
                     startDistance c < distance pb) cs.
Proof.
  intros Hmono. induction 1 as [|cs b s i c Hcs [IHs IHb] Hbs Hsi Hem].
  - split; constructor.
  - destruct Hem as (ps & pi & peak & Hps & Hpi & Hq & _ & ->).
    apply qualifies_gates in Hq as (Hlen & _ & _).
    destruct (lookup_lt_is_Some_2 smoothed b) as [pb Hpb].
    { apply lookup_lt_Some in Hps. lia. }
    pose proof (NonDecreasing_le smoothed b s pb ps Hmono Hbs Hpb Hps) as Hbs'.
    rewrite Forall_forall in IHb. split.
    + apply StronglySorted_app. split_and!; [|done|repeat constructor].
      intros c1 c2 Hc1 ->%list_elem_of_singleton.
      specialize (IHb c1 Hc1 pb Hpb). unfold startLt. cbn. lra.
    + apply Forall_app. split.
      * apply Forall_forall. intros c1 Hc1 pi' Hpi'.
        assert (pi' = pi) as -> by congruence.
        specialize (IHb c1 Hc1 pb Hpb). lra.
      * constructor; [|done]. intros pi' Hpi'.
        assert (pi' = pi) as -> by congruence. cbn. lra.
Qed.

End ExactSegmenter.

Lemma nonDecreasingb_sound {num : Type} `{Number num}
    (points : list (@Point num)) :
  nonDecreasingb points = true -> NonDecreasing points.
Proof.
  induction points as [|p points IH]; intros Hb i a b Ha Hb'; [done|].
  destruct points as [|q points]; [by destruct i|].
  cbn [nonDecreasingb] in Hb. apply andb_prop in Hb as [Hpq Hb].
  destruct i as [|i]; cbn in Ha, Hb'.
  - by injection Ha as <-; injection Hb' as <-.
  - by apply (IH Hb i).
Qed.

Section ExactPeak.

Local Open Scope Q_scope.
Implicit Types (smoothed scanned : list (@Point Q)) (p : @Point Q)
               (peak start : Q * Q).

Lemma peakUpdate_ge peak p :
  snd peak <= snd (peakUpdate peak p) /\ elevation p <= snd (peakUpdate peak p).
Proof.
  unfold peakUpdate. cbn [ltb Q_Number].
  destruct (Qltb (snd peak) (elevation p)) eqn:Hup; cbn; q_reflect; lra.
Qed.

Lemma runningPeak_ge_start scanned start :
  snd start <= snd (runningPeak start scanned).
Proof.
  revert start. induction scanned as [|p scanned IH]; intros start.
  - apply Qle_refl.
  - rewrite runningPeak_cons. specialize (IH (peakUpdate start p)).
    pose proof (peakUpdate_ge start p). lra.
Qed.

Lemma runningPeak_bound scanned start :
  Forall (fun p => elevation p <= snd (runningPeak start scanned)) scanned.
Proof.
  revert start. induction scanned as [|p scanned IH]; intros start; constructor.
  - rewrite runningPeak_cons.
    pose proof (runningPeak_ge_start scanned (peakUpdate start p)).
    pose proof (peakUpdate_ge start p). lra.
  - apply IH.
Qed.

Lemma runningPeak_attained scanned start :
  runningPeak start scanned = start \/
  exists m p, scanned !! m = Some p /\
    runningPeak start scanned = (distance p, elevation p).
Proof.
  revert start. induction scanned as [|p scanned IH]; intros start; [by left|].
  rewrite runningPeak_cons.
  destruct (IH (peakUpdate start p)) as [Heq|(m & q & Hq & Heq)].
  - rewrite Heq. unfold peakUpdate.
    destruct (ltb _ _); [right|by left]. by exists 0%nat, p.
  - right. by exists (S m), q.
Qed.

Lemma dropsBelow_true peak p :
  dropsBelow peak p = true <-> elevation p < snd peak - 10.
Proof.
  unfold dropsBelow. cbn [lit sub ltb Q_Number]. split.
  - intros [_ Hd]%andb_prop. by q_reflect.
  - intros Hd. apply andb_true_intro. split.
    + apply negb_true_iff. q_reflect. lra.
    + by q_reflect.
Qed.

Lemma dropsBelow_false peak p :
  dropsBelow peak p = false <-> ~ elevation p < snd peak - 10.
Proof. rewrite <- dropsBelow_true. by destruct (dropsBelow peak p). Qed.

Lemma Emitted_PeakRefined smoothed s i c :
  Emitted smoothed s i c -> PeakRefined smoothed c.
Proof.
  intros (ps & point & peak & _ & Hpt & _ & Hscan & ->).
  assert (i < List.length smoothed)%nat as Hi by by eapply lookup_lt_Some.
  destruct (peakScan_spec smoothed
    (Nat.min (i + 20) (List.length smoothed) - i) i
    (distance point) (elevation point)) as (k & Hk & Hscan' & Hbefore & Hstop);
    [lia|].
  rewrite lookahead_window in Hscan', Hbefore, Hstop.
  rewrite Hscan in Hscan'. injection Hscan' as ->.
  set (window := take 20 (drop i smoothed)) in *.
  assert (window !! 0%nat = Some point) as H0.
  { unfold window. rewrite lookup_take_lt, lookup_drop, Nat.add_0_r by lia. done. }
  assert (List.length window
          = (Nat.min (i + 20) (List.length smoothed) - i)%nat) as Hlen.
  { unfold window. rewrite length_take, length_drop. lia. }
  assert (1 <= k)%nat as Hk1.
  { destruct k as [|k]; [|lia]. destruct Hstop as (p & Hp & Hd); [lia|].
    assert (p = point) as -> by congruence.
    apply dropsBelow_true in Hd. rewrite take_0 in Hd. cbn in Hd. lra. }
  exists i, point, k. cbv zeta. fold window.
  split_and!; try done; try lia.
  - by destruct (runningPeak _ _).
  - intros m p Hm Hp. apply dropsBelow_false. by apply Hbefore.
  - intros Hlt. destruct Hstop as (p & Hp & Hd); [lia|].
    exists p. split; [done|]. by apply dropsBelow_true.
  - cbn [peakElevation candidate]. apply runningPeak_bound.
  - cbn [peakDistance peakElevation candidate].
    destruct (runningPeak_attained (take k window)
                (distance point, elevation point)) as [->|(m & p & Hp & ->)].
    + exists 0%nat, point. rewrite Nat.add_0_r. split_and!; (done || lia).
    + apply lookup_take_Some in Hp as [Hp Hm].
      exists m, p. split_and!; try done.
      unfold window in Hp. apply lookup_take_Some in Hp as [Hp _].
      by rewrite lookup_drop in Hp.
Qed.

End ExactPeak.

(** * The properties of the specification *)

Section Gates.

Context {num : Type} `{Number num}.
Local Open Scope num_scope.
Implicit Types (smoothed : list (@Point num)) (cs : list (@ClimbSegment num)).

Lemma Candidates_Forall smoothed cs b :
  Candidates smoothed cs b ->
  Forall (fun c => exists s i, s < i /\ Emitted smoothed s i c) cs.
Proof.
  induction 1 as [|cs b s i c Hcs IH Hbs Hsi Hem]; [constructor|].
  apply Forall_app. split; [done|]. constructor; [|done]. by exists s, i.
Qed.

Lemma Emitted_gates smoothed s i c :
  Emitted smoothed s i c ->
  (length c >=? lit 0.5) = true /\
  (elevationGain c >=? lit 30) = true /\
  (averageGradient c >=? lit 3) = true.
Proof.
  intros (ps & pi & peak & _ & _ & Hq & _ & ->). unfold qualifies in Hq.
  apply andb_prop in Hq as [Hq H3]. apply andb_prop in Hq as [H1 H2]. done.
Qed.

(** C1.  Every segment [detectClimbs] returns passed the three gates of the
    segmenter: its length is at least 0.5 km, its elevation gain at least
    30 m and its average gradient at least 3 percent.  This holds for every
    input and for every arithmetic the comparisons are read in; the call
    itself never fails. *)
Theorem detectClimbs_gates (elevationPoints : list (@Point num)) :
  exists out,
    detectClimbs elevationPoints = Some out /\
    Forall (fun c =>
      (length c >=? lit 0.5) = true /\
      (elevationGain c >=? lit 30) = true /\
      (averageGradient c >=? lit 3) = true) out.
Proof.
  destruct (detectClimbs_spec elevationPoints) as (cands & b & Hcands & Hout).
  eexists. split; [done|]. apply Forall_forall. intros c Hc.
  apply (elem_of_sublist _ cands) in Hc; [|apply merge_sublist].
  apply Candidates_Forall in Hcands. rewrite Forall_forall in Hcands.
  destruct (Hcands c Hc) as (s & i & _ & Hem). by eapply Emitted_gates.
Qed.

(** C8.  On fewer than 10 samples [detectClimbs] returns the empty list at
    once, without raising. *)
Theorem detectClimbs_short (elevationPoints : list (@Point num)) :
  List.length elevationPoints < 10 ->
  detectClimbs elevationPoints = Some [].
Proof.
  intros Hn. unfold detectClimbs.
  by destruct (Nat.ltb_spec (List.length elevationPoints) 10); [|lia].
Qed.

End Gates.

Section ExactOrder.

Local Open Scope Q_scope.

#[local] Instance startLe_trans : Transitive startLe.
Proof. intros a b c. unfold startLe. apply Qle_trans. Qed.

Lemma merged_order_spaced (cands : list (@ClimbSegment Q)) :
  StronglySorted startLt cands ->
  StronglySorted startLt (fold_left mergeOne cands []) /\
  closePairs (fold_left mergeOne cands []) = 0%nat.
Proof.
  intros Hsorted. split.
  - eapply StronglySorted_sublist; [apply merge_sublist|done].
  - destruct (merge_spaced cands) as (kept & -> & Hsp).
    + eapply StronglySorted_weaken; [|done]. intros x y. apply Qlt_le_weak.
    + by apply SpacedR_closePairs.
Qed.

(** On distances that never decrease, the returned segments are strictly
    ordered by start distance and no two neighbours are too close. *)
Lemma detectClimbs_no_close_pairs (elevationPoints : list (@Point Q)) :
  NonDecreasing elevationPoints ->
  exists out,
    detectClimbs elevationPoints = Some out /\
    StronglySorted startLt out /\ closePairs out = 0%nat.
Proof.
  intros Hmono.
  destruct (detectClimbs_spec elevationPoints) as (cands & b & Hcands & Hout).
  eexists. split; [done|]. apply merged_order_spaced.
  eapply Candidates_order; [|done]. by apply NonDecreasing_smoothed.
Qed.


(** C5.  The merger is idempotent on candidates ordered by start distance:
    merging its own output returns that output unchanged. *)
Theorem mergeNearbyClimbs_idempotent (climbs : list (@ClimbSegment Q)) :
  Sorted startLe climbs ->
  exists out,
    mergeNearbyClimbs climbs = Some out /\
    mergeNearbyClimbs out = Some out.
Proof.
  intros Hsorted. apply Sorted_StronglySorted in Hsorted; [|apply _].
  destruct (merge_spaced climbs Hsorted) as (kept & Hkept & Hsp).
  exists (rev kept). rewrite !merge_fold, Hkept. split; [done|].
  f_equal. by apply SpacedR_merge_fixed.
Qed.

End ExactOrder.

Section ExactMergerSpec.

Local Open Scope Q_scope.
Implicit Types (kept : list (@ClimbSegment Q)) (c l : @ClimbSegment Q).

Lemma keepStep_mergeOne kept c : keepStep kept c = mergeOne kept c.
Proof.
  unfold keepStep, mergeOne, minDistanceBetweenClimbs.
  destruct (last kept) as [l|]; [|done]. cbn [lit leb ltb Q_Number].
  destruct (Qltb _ 2) eqn:Hlt, (Qle_bool 2 _) eqn:Hle; try done;
    q_reflect; lra.
Qed.

Lemma keepStep_fold (climbs : list (@ClimbSegment Q)) kept :
  fold_left keepStep climbs kept = fold_left mergeOne climbs kept.
Proof.
  revert kept. induction climbs as [|c climbs IH]; intros kept; [done|].
  cbn. by rewrite keepStep_mergeOne, IH.
Qed.

(** C2.  The merger is the left-to-right fold of [keepStep] from the empty
    accumulator.  A candidate is appended when the accumulator is empty or
    its start lies at least 2 km after the end of the last kept segment;
    otherwise it replaces the last kept segment exactly when its score is
    strictly greater, and is dropped if not.  The loop body only looks at the
    last kept segment: the segments kept before it pass through unchanged. *)
Theorem mergeNearbyClimbs_greedy :
  (forall climbs : list (@ClimbSegment Q),
     mergeNearbyClimbs climbs = Some (fold_left keepStep climbs [])) /\
  (forall c, keepStep [] c = [c]) /\
  (forall kept l c,
     2 <= startDistance c - endDistance l ->
     keepStep (kept ++ [l]) c = kept ++ [l; c]) /\
  (forall kept l c,
     startDistance c - endDistance l < 2 -> score l < score c ->
     keepStep (kept ++ [l]) c = kept ++ [c]) /\
  (forall kept l c,
     startDistance c - endDistance l < 2 -> ~ score l < score c ->
     keepStep (kept ++ [l]) c = kept ++ [l]) /\
  (forall (climbs : list (@ClimbSegment Q)) i kept l,
     mergeStep climbs i (kept ++ [l])
     = (kept ++.) <$> mergeStep climbs i [l]).
Proof.
  split_and!.
  - intros climbs. by rewrite merge_fold, keepStep_fold.
  - done.
  - intros kept l c Hgap. unfold keepStep. rewrite last_snoc.
    cbn [lit leb ltb Q_Number].
    destruct (Qle_bool 2 _) eqn:Hle; [by rewrite <- app_assoc|].
    q_reflect. lra.
  - intros kept l c Hgap Hscore. unfold keepStep.
    rewrite last_snoc, removelast_last. cbn [lit leb ltb Q_Number].
    destruct (Qle_bool 2 _) eqn:Hle; [q_reflect; lra|].
    destruct (Qltb (score l) (score c)) eqn:Hsc; [done|]. q_reflect. lra.
  - intros kept l c Hgap Hscore. unfold keepStep.
    rewrite last_snoc. cbn [lit leb ltb Q_Number].
    destruct (Qle_bool 2 _) eqn:Hle; [q_reflect; lra|].
    destruct (Qltb (score l) (score c)) eqn:Hsc; [|done]. q_reflect. lra.
  - intros climbs i kept l. apply mergeStep_prefix.
Qed.

(** C4.  The category is a function of the score alone, by fixed
    breakpoints; in every returned segment the category is the one of its
    score, and the score is [length * averageGradient^2]. *)
Theorem categorizeClimb_breakpoints :
  (forall s : Q, 600 <= s -> categorizeClimb s = Some HC) /\
  (forall s : Q, 300 <= s < 600 -> categorizeClimb s = Some Cat1) /\
  (forall s : Q, 150 <= s < 300 -> categorizeClimb s = Some Cat2) /\
  (forall s : Q, 75 <= s < 150 -> categorizeClimb s = Some Cat3) /\
  (forall s : Q, 0 < s < 75 -> categorizeClimb s = Some Cat4) /\
  (forall s : Q, s <= 0 -> categorizeClimb s = None) /\
  categorizeClimb 600 = Some HC /\
  categorizeClimb 299.9 = Some Cat2 /\
  categorizeClimb 0 = None /\
  (forall elevationPoints : list (@Point Q),
     exists out,
       detectClimbs elevationPoints = Some out /\
       Forall (fun c =>
         category c = categorizeClimb (score c) /\
         score c = (length c * (averageGradient c * averageGradient c))%Q)
         out).
Proof.
  assert (forall s : Q,
    categorizeClimb s =
      if Qle_bool 600 s then Some HC
      else if Qle_bool 300 s then Some Cat1
      else if Qle_bool 150 s then Some Cat2
      else if Qle_bool 75 s then Some Cat3
      else if Qltb 0 s then Some Cat4 else None) as Hcat by done.
  split_and!; try done.
  1-6: intros s Hs; rewrite Hcat;
    repeat match goal with
    | |- context [Qle_bool ?a ?b] =>
        let E := fresh in destruct (Qle_bool a b) eqn:E
    | |- context [Qltb ?a ?b] =>
        let E := fresh in destruct (Qltb a b) eqn:E
    end; try done; q_reflect; lra.
  intros pts.
  destruct (detectClimbs_spec pts) as (cands & b & Hcands & Hout).
  eexists. split; [done|]. apply Forall_forall. intros c Hc.
  apply (elem_of_sublist _ cands) in Hc; [|apply merge_sublist].
  apply Candidates_Forall in Hcands. rewrite Forall_forall in Hcands.
  destruct (Hcands c Hc) as (s & i & _ & Hem).
  exact (Emitted_score _ _ _ _ Hem).
Qed.

End ExactMergerSpec.

Section ExactPeakProperties.

Local Open Scope Q_scope.

Lemma detectClimbs_Emitted (elevationPoints : list (@Point Q)) :
  exists smoothed out,
    smoothElevationForClimbDetection elevationPoints = Some smoothed /\
    detectClimbs elevationPoints = Some out /\
    (NonDecreasing elevationPoints -> NonDecreasing smoothed) /\
    Forall (fun c => exists s i, Emitted smoothed s i c) out.
Proof.
  destruct (detectClimbs_spec elevationPoints) as (cands & b & Hcands & Hout).
  eexists _, _. split; [apply smooth_spec|]. split; [done|].
  split; [apply NonDecreasing_smoothed|].
  apply Forall_forall. intros c Hc.
  apply (elem_of_sublist _ cands) in Hc; [|apply merge_sublist].
  apply Candidates_Forall in Hcands. rewrite Forall_forall in Hcands.
  destruct (Hcands c Hc) as (s & i & _ & Hem). by exists s, i.
Qed.

(** C6.  For every returned segment the peak look-ahead starts at the index
    its window closed at, scans no further than the window of 20 points that
    begins there (the closing point and at most 19 after it), keeps the
    running maximum elevation with the distance it is reached at as
    [peakElevation] and [peakDistance], and stops early at the first scanned
    point more than 10 m below the running maximum. *)
Theorem detectClimbs_peak_refinement (elevationPoints : list (@Point Q)) :
  exists smoothed out,
    smoothElevationForClimbDetection elevationPoints = Some smoothed /\
    detectClimbs elevationPoints = Some out /\
    Forall (PeakRefined smoothed) out.
Proof.
  destruct (detectClimbs_Emitted elevationPoints)
    as (smoothed & out & Hsm & Hout & _ & Hem).
  exists smoothed, out. split; [done|]. split; [done|].
  eapply Forall_impl; [exact Hem|]. intros c (s & i & Hc).
  by eapply Emitted_PeakRefined.
Qed.

Lemma PeakRefined_after_end (smoothed : list (@Point Q)) c :
  PeakRefined smoothed c ->
  endElevation c <= peakElevation c /\
  (NonDecreasing smoothed -> endDistance c <= peakDistance c).
Proof.
  intros (i & point & k & Hpt & Hd & He & H0 & Hk & _ & _ & _ & _ & Hmax & Hat).
  cbv zeta in *. split.
  - rewrite He. rewrite Forall_forall in Hmax. apply Hmax.
    apply list_elem_of_lookup. exists 0%nat. rewrite lookup_take_lt by lia. done.
  - intros Hmono. destruct Hat as (m & p & _ & Hp & <- & _). rewrite Hd.
    apply (NonDecreasing_le smoothed i (i + m)); [done|lia|done..].
Qed.

(** C10.  On a valid input (distances that never decrease) every returned
    segment has [peakElevation >= endElevation] and
    [peakDistance >= endDistance]: the look-ahead can only raise the peak above
    the nominal end of the segment, and reaches it at the closing sample or a
    later one. *)
Theorem detectClimbs_peak_after_end (elevationPoints : list (@Point Q)) :
  NonDecreasing elevationPoints ->
  exists out,
    detectClimbs elevationPoints = Some out /\
    Forall (fun c =>
      endElevation c <= peakElevation c /\
      endDistance c <= peakDistance c) out.
Proof.
  intros Hmono.
  destruct (detectClimbs_Emitted elevationPoints)
    as (smoothed & out & Hsm & Hout & Hmono' & Hem).
  exists out. split; [done|].
  eapply Forall_impl; [exact Hem|]. intros c (s & i & Hc).
  apply Emitted_PeakRefined, PeakRefined_after_end in Hc as [He Hd].
  split; [done|]. by apply Hd, Hmono'.
Qed.

End ExactPeakProperties.

Lemma take_seven {A} (l : list A) :
  7 <= List.length l ->
  exists a0 a1 a2 a3 a4 a5 a6,
    take 7 l = [a0; a1; a2; a3; a4; a5; a6] /\
    l !! 0 = Some a0 /\ l !! 1 = Some a1 /\ l !! 2 = Some a2 /\
    l !! 3 = Some a3 /\ l !! 4 = Some a4 /\ l !! 5 = Some a5 /\
    l !! 6 = Some a6.
Proof.
  intros Hl.
  do 7 (destruct l as [|? l]; [cbn in Hl; lia|]).
  by eexists _, _, _, _, _, _, _.
Qed.

Section ExactSmoother.

Local Open Scope Q_scope.
Implicit Types (points : list (@Point Q)) (p : @Point Q).

Lemma windowMean_mean points i :
  (3 <= i)%nat -> (i + 3 < List.length points)%nat ->
  windowMean points i ==
    (elevationAt points (i - 3) + elevationAt points (i - 2)
     + elevationAt points (i - 1) + elevationAt points i
     + elevationAt points (i + 1) + elevationAt points (i + 2)
     + elevationAt points (i + 3)) / 7.
Proof.
  intros Hi Hn.
  destruct (take_seven (drop (i - 3) points))
    as (a0 & a1 & a2 & a3 & a4 & a5 & a6 & Htake & H0 & H1 & H2 & H3 & H4 & H5 & H6).
  { rewrite length_drop. lia. }
  rewrite lookup_drop in H0, H1, H2, H3, H4, H5, H6.
  unfold windowMean, elevationAt. rewrite Htake.
  replace (i - 2)%nat with (i - 3 + 1)%nat by lia.
  replace (i - 1)%nat with (i - 3 + 2)%nat by lia.
  replace (points !! i) with (points !! (i - 3 + 3)%nat) by (f_equal; lia).
  replace (i + 1)%nat with (i - 3 + 4)%nat by lia.
  replace (i + 2)%nat with (i - 3 + 5)%nat by lia.
  replace (i + 3)%nat with (i - 3 + 6)%nat by lia.
  rewrite <- (Nat.add_0_r (i - 3)) at 1.
  rewrite H0, H1, H2, H3, H4, H5, H6.
  change (ofNat windowSize) with 3%Q. cbn. field.
Qed.

(** C7.  The smoother returns an array of the same length; an interior
    point (at least [windowSize = 3] samples on either side) keeps its
    distance and gets the arithmetic mean of the 7 elevations centred on it;
    the 3 points at either end pass through unchanged; every point keeps its
    distance; and an input of fewer than 5 samples is returned as it is. *)
Theorem smoother_contract points :
  exists smoothed,
    smoothElevationForClimbDetection points = Some smoothed /\
    List.length smoothed = List.length points /\
    (forall i p, points !! i = Some p ->
       (3 <= i)%nat -> (i + 3 < List.length points)%nat ->
       exists q, smoothed !! i = Some q /\ distance q = distance p /\
         elevation q ==
           (elevationAt points (i - 3) + elevationAt points (i - 2)
            + elevationAt points (i - 1) + elevationAt points i
            + elevationAt points (i + 1) + elevationAt points (i + 2)
            + elevationAt points (i + 3)) / 7) /\
    (forall i p, points !! i = Some p ->
       (i < 3 \/ List.length points <= i + 3)%nat ->
       smoothed !! i = Some p) /\
    (forall i p q, points !! i = Some p -> smoothed !! i = Some q ->
       distance q = distance p) /\
    ((List.length points < 5)%nat -> smoothed = points).
Proof.
  exists (imap (smoothedAt points) points).
  split; [apply smooth_spec|]. split; [apply length_imap|]. split_and!.
  - intros i p Hp Hi Hn. rewrite list_lookup_imap, Hp. cbn.
    eexists. split; [done|]. rewrite smoothedAt_distance. split; [done|].
    unfold smoothedAt, interior.
    destruct (Nat.leb_spec 3 i); [|lia].
    destruct (Nat.ltb_spec (i + 3) (List.length points)); [|lia].
    cbn. by apply windowMean_mean.
  - intros i p Hp Hi. rewrite list_lookup_imap, Hp. cbn. f_equal.
    unfold smoothedAt, interior. by nat_cases.
  - intros i p q Hp. rewrite list_lookup_imap, Hp. cbn. intros [= <-].
    apply smoothedAt_distance.
  - intros Hn. apply list_eq. intros i. rewrite list_lookup_imap.
    destruct (points !! i) as [p|] eqn:Hp; [cbn|done]. f_equal.
    unfold smoothedAt, interior. by nat_cases.
Qed.

End ExactSmoother.

Section NoClimb.

Context {num : Type} `{Number num}.
Local Open Scope num_scope.
Implicit Types (smoothed : list (@Point num)) (st : @ScanState num).

Lemma scanStep_idle smoothed i st :
  NoSteepPair smoothed ->
  1 <= i < List.length smoothed ->
  climbs st = [] /\ isClimbing st = false ->
  exists st', scanStep smoothed i st = Some st' /\
    (climbs st' = [] /\ isClimbing st' = false).
Proof.
  intros Hflat Hi [Hcs Hcl]. unfold scanStep.
  destruct (lookup_lt_is_Some_2 smoothed i) as [point Hpt]; [lia|].
  destruct (lookup_lt_is_Some_2 smoothed (i - 1)) as [prevPoint Hprev]; [lia|].
  rewrite Hpt, Hprev. cbn. rewrite Hcl. cbn.
  rewrite (Hflat (i - 1)%nat prevPoint point) by
    (try done; by replace (S (i - 1)) with i by lia).
  cbn. eexists. split; [done|]. cbn. by rewrite Hcl.
Qed.

(** Without a pair steeper than the threshold no window ever opens. *)
Lemma detectClimbs_idle (elevationPoints smoothed : list (@Point num)) :
  smoothElevationForClimbDetection elevationPoints = Some smoothed ->
  NoSteepPair smoothed ->
  detectClimbs elevationPoints = Some [].
Proof.
  intros Hsm Hflat. unfold detectClimbs.
  destruct (Nat.ltb_spec (List.length elevationPoints) 10) as [Hn|Hn]; [done|].
  destruct (lookup_lt_is_Some_2 elevationPoints 0) as [first Hfirst]; [lia|].
  rewrite Hfirst, Hsm. cbn.
  edestruct (forLoop_invariant
    (fun _ st => climbs st = [] /\ isClimbing st = false)
    (scanStep smoothed) (List.length smoothed - 1) 1) as (st & Hst & Hcs & _);
    [| |rewrite Hst]; [done| |].
  - intros k t Hk. apply scanStep_idle; [done|lia].
  - cbn. by rewrite Hcs.
Qed.

End NoClimb.

Section ExactNoClimb.

Local Open Scope Q_scope.
Implicit Types (points : list (@Point Q)) (p : @Point Q).

Lemma pairGradient_zero_delta (prevPoint point : @Point Q) :
  distance point == distance prevPoint ->
  pairGradient prevPoint point = 0.
Proof.
  intros Hd. unfold pairGradient. cbn [lit sub ltb Q_Number].
  destruct (Qltb 0 _) eqn:Hlt; [|done]. q_reflect. lra.
Qed.

Lemma pairGradient_level (prevPoint point : @Point Q) :
  elevation point == elevation prevPoint ->
  ~ 3 < pairGradient prevPoint point.
Proof.
  intros He. unfold pairGradient. cbn [lit add sub mul div ltb Q_Number].
  destruct (Qltb 0 _); [|lra].
  assert ((elevation point - elevation prevPoint)
          / ((distance point - distance prevPoint) * 1000) * 100 == 0) as ->;
    [|lra].
  rewrite He. unfold Qdiv. ring.
Qed.

Lemma smoothedAt_level points e i p :
  Forall (fun p => elevation p == e) points ->
  points !! i = Some p ->
  elevation (smoothedAt points i p) == e.
Proof.
  intros Hflat Hp. rewrite Forall_lookup in Hflat.
  unfold smoothedAt, interior.
  destruct (Nat.leb_spec 3 i); [|by eapply Hflat].
  destruct (Nat.ltb_spec (i + 3) (List.length points)); [|by eapply Hflat].
  change (windowMean points i == e).
  eapply Qeq_trans; [by apply windowMean_mean|].
  assert (forall j, (j < List.length points)%nat -> elevationAt points j == e)
    as Hat.
  { intros j Hj. unfold elevationAt.
    destruct (lookup_lt_is_Some_2 points j Hj) as [q Hq]. rewrite Hq. cbn.
    by eapply Hflat. }
  rewrite !Hat by lia. field.
Qed.

(** In exact arithmetic the mean of seven equal elevations is that
    elevation: rounding is what the condition on [meanOfEqual] is about. *)
Lemma meanOfEqual_exact (e : Q) : meanOfEqual e == e.
Proof.
  unfold meanOfEqual. change (ofNat windowSize) with 3.
  cbn [lit add mul div Q_Number]. field.
Qed.

Lemma detectClimbs_flat_exact points e :
  Forall (fun p => elevation p == e) points ->
  detectClimbs points = Some [].
Proof.
  intros Hflat.
  apply (detectClimbs_idle _ (imap (smoothedAt points) points));
    [apply smooth_spec|].
  intros i prevPoint point. rewrite !list_lookup_imap.
  destruct (points !! i) as [p|] eqn:Hp; [|done].
  destruct (points !! S i) as [q|] eqn:Hq; [|done].
  cbn. intros [= <-] [= <-]. unfold gradientThreshold.
  cbn [lit ltb Q_Number]. apply Qltb_ge, Qnot_lt_le, pairGradient_level.
  by rewrite !(smoothedAt_level points e).
Qed.

End ExactNoClimb.

Section LevelWindow.

Context {num : Type} `{Number num}.
Local Open Scope num_scope.
Implicit Types (points : list (@Point num)).

(** On a track of constant elevation the smoother writes [meanOfEqual] of
    that elevation at every interior index. *)
Lemma windowMean_flat points e i :
  Forall (fun p => elevation p = e) points ->
  3 <= i -> i + 3 < List.length points ->
  windowMean points i = meanOfEqual e.
Proof.
  intros Hflat Hi Hn. rewrite Forall_lookup in Hflat.
  destruct (take_seven (drop (i - 3) points))
    as (a0 & a1 & a2 & a3 & a4 & a5 & a6 & Htake & H0 & H1 & H2 & H3 & H4 & H5 & H6).
  { rewrite length_drop. lia. }
  rewrite lookup_drop in H0, H1, H2, H3, H4, H5, H6.
  unfold windowMean, meanOfEqual. rewrite Htake. cbn.
  by rewrite (Hflat _ _ H0), (Hflat _ _ H1), (Hflat _ _ H2), (Hflat _ _ H3),
    (Hflat _ _ H4), (Hflat _ _ H5), (Hflat _ _ H6).
Qed.

Lemma smoothedAt_flat points e i p :
  Forall (fun p => elevation p = e) points ->
  meanOfEqual e = e ->
  points !! i = Some p ->
  elevation (smoothedAt points i p) = e.
Proof.
  intros Hflat Hmean Hp. unfold smoothedAt, interior.
  destruct (Nat.leb_spec 3 i);
    [|rewrite Forall_lookup in Hflat; by eapply Hflat].
  destruct (Nat.ltb_spec (i + 3) (List.length points));
    [|rewrite Forall_lookup in Hflat; by eapply Hflat].
  cbn. by rewrite (windowMean_flat points e).
Qed.

End LevelWindow.

(** ** Level pairs in binary64

    The facts below are read off the specification of the binary64
    operations ([SFsub], [SFdiv], [SFmul], [SFcompare]); they hold for every
    float, the infinities and NaN included. *)

Section Binary64NoClimb.

Local Open Scope num_scope.
Implicit Types (points : list (@Point float)) (x d e : float).

(** A number minus itself is a zero, or NaN when the number is infinite or
    NaN. *)
Lemma SF64sub_diag (x : spec_float) :
  SF64sub x x = S754_nan \/ exists s, SF64sub x x = S754_zero s.
Proof.
  destruct x as [[]|[]| |s m e]; cbn; eauto.
  right. exists false. unfold SF64sub, SFsub. by rewrite Z.sub_diag.
Qed.

Lemma F64_sub_diag_not_positive x : (x - x >? lit 0) = false.
Proof.
  cbn [sub ltb lit Float_Number]. rewrite ltb_spec, sub_spec.
  destruct (SF64sub_diag (Prim2SF x)) as [->|[s ->]]; by vm_compute.
Qed.

(** Whatever the divisor, the gradient computed from an elevation change
    [x - x] is a zero or NaN, and the test against the threshold fails. *)
Lemma F64_level_not_steep x d :
  ((x - x) / d * lit 100 >? gradientThreshold) = false.
Proof.
  unfold gradientThreshold. cbn [sub div mul ltb lit Float_Number].
  rewrite ltb_spec, mul_spec, div_spec, sub_spec.
  destruct (SF64sub_diag (Prim2SF x)) as [->|[s ->]]; [done|].
  destruct (Prim2SF d) as [[]|[]| |[] m e]; destruct s; by vm_compute.
Qed.

Lemma pairGradient_zero_delta_float (prevPoint point : @Point float) :
  distance point = distance prevPoint ->
  pairGradient prevPoint point = lit 0.
Proof.
  intros Hd. unfold pairGradient. by rewrite Hd, F64_sub_diag_not_positive.
Qed.

Lemma pairGradient_level_float (prevPoint point : @Point float) :
  elevation point = elevation prevPoint ->
  (pairGradient prevPoint point >? gradientThreshold) = false.
Proof.
  intros He. unfold pairGradient. rewrite He.
  destruct (_ >? lit 0); [apply F64_level_not_steep|by vm_compute].
Qed.

Lemma detectClimbs_flat_float points e :
  Forall (fun p => elevation p = e) points ->
  meanOfEqual e = e ->
  detectClimbs points = Some [].
Proof.
  intros Hflat Hmean.
  apply (detectClimbs_idle _ (imap (smoothedAt points) points));
    [apply smooth_spec|].
  intros i prevPoint point. rewrite !list_lookup_imap.
  destruct (points !! i) as [p|] eqn:Hp; [|done].
  destruct (points !! S i) as [q|] eqn:Hq; [|done].
  cbn. intros [= <-] [= <-]. apply pairGradient_level_float.
  by rewrite !(smoothedAt_flat points e).
Qed.

End Binary64NoClimb.


(** * Examples and witnesses *)

(** ** Runs on the sample inputs *)

Example singleClimb_run :
  map summary <$> detectClimbs (num:=Q) (trackOf (1 # 4) singleClimbProfile)
  = Some [(7 # 4, 15 # 2, Some Cat2, 31 # 4, 500)]%Q.
Proof. vm_compute. reflexivity. Qed.

Example threeClimb_run :
  map summary <$> detectClimbs (num:=Q) (trackOf (1 # 4) threeClimbProfile)
  = Some [(23 # 4, 19 # 2, Some Cat2, 39 # 4, 614);
          (19, 89 # 4, Some Cat3, 91 # 4, 720)]%Q.
Proof. vm_compute. reflexivity. Qed.

Example fourCandidates_run :
  mergeNearbyClimbs fourCandidates = Some [segment 4 7 200; segment 15 18 50].
Proof. vm_compute. reflexivity. Qed.

(** The merger need not be idempotent on candidates that are not ordered by
    start distance: the second pass merges what the first one kept. *)
Example unorderedCandidates_run :
  (out ← mergeNearbyClimbs unorderedCandidates; mergeNearbyClimbs out)
  = Some [segment 1.5 2 5]
  /\ mergeNearbyClimbs unorderedCandidates
      = Some [segment 0 1 1; segment 1.5 2 5].
Proof. vm_compute. done. Qed.

(** Outside the input contract the recorded peak can lie before the end of
    the segment: here the segment ends at km 6 and its peak is at km 5. *)
Example backtrackingTrack_run :
  map summary <$> detectClimbs backtrackingTrack
  = Some [(0, 6, Some HC, 5, 700)]%Q.
Proof. vm_compute. reflexivity. Qed.

(** The smoother on 9 samples: the three in the middle are averaged. *)
Example smoother_run :
  map (fun p => (distance p, Qred (elevation p)))
    <$> smoothElevationForClimbDetection
          (trackOf (num:=Q) 1 [0; 7; 14; 21; 28; 35; 49; 56; 70]%Q)
  = Some [(0, 0); (1, 7); (2, 14); (3, 22); (4, 30); (5, 39); (6, 49);
          (7, 56); (8, 70)]%Q.
Proof. vm_compute. reflexivity. Qed.

(** The same runs in binary64 arithmetic. *)

Example singleClimb_run_float :
  map category <$> detectClimbs (num:=float)
                     (trackOf (1 # 4) singleClimbProfile)
  = Some [Some Cat2].
Proof. vm_compute. reflexivity. Qed.

Example threeClimb_run_float :
  map (fun c => (startDistance c, endDistance c, category c, peakDistance c))
    <$> detectClimbs (num:=float) (trackOf (1 # 4) threeClimbProfile)
  = Some [(5.75, 9.5, Some Cat2, 9.75); (19, 22.25, Some Cat3, 22.75)]%float.
Proof. vm_compute. reflexivity. Qed.

Example flat_run_float :
  detectClimbs (num:=float) (trackOf (1 # 4) flatProfile) = Some [].
Proof. vm_compute. reflexivity. Qed.

(** The limits of exact arithmetic.  In binary64 the moving average of a
    constant may differ from it in the last place: harmless at the elevations
    of a road, but at 2^61 - 768 m the last place is worth 256 m, and the
    smoothed flat track shows a step that passes the gates. *)
Example extremeFlat_run_float :
  map elevation <$> (take 4 <$> smoothElevationForClimbDetection (num:=float)
                                  (trackOf (1 # 4) extremeFlatProfile))
  = Some [2305843009213693184; 2305843009213693184; 2305843009213693184;
          2305843009213693440]%float
  /\ List.length <$> detectClimbs (num:=float)
                        (trackOf (1 # 4) extremeFlatProfile)
      = Some 1%nat.
Proof. vm_compute. done. Qed.


Example categorizeClimb_float :
  categorizeClimb (num:=float) (lit 600) = Some HC /\
  categorizeClimb (num:=float) (lit 299.9) = Some Cat2 /\
  categorizeClimb (num:=float) (lit 0) = None.
Proof. vm_compute. done. Qed.

(** ** Witnesses *)

Lemma detectClimbs_gates_witness :
  (exists out,
     detectClimbs (num:=Q) (trackOf (1 # 4) threeClimbProfile) = Some out /\
     Forall (fun c : @ClimbSegment Q =>
       (0.5 <= length c)%Q /\ (30 <= elevationGain c)%Q /\
       (3 <= averageGradient c)%Q) out) /\
  (exists out,
     detectClimbs (num:=float) (trackOf (1 # 4) threeClimbProfile) = Some out /\
     Forall (fun c : @ClimbSegment float =>
       PrimFloat.leb 0.5 (length c) = true /\
       PrimFloat.leb 30 (elevationGain c) = true /\
       PrimFloat.leb 3 (averageGradient c) = true) out).
Proof.
  split.
  - destruct (detectClimbs_gates (num:=Q) (trackOf (1 # 4) threeClimbProfile))
      as (out & Hout & Hgates).
    exists out. split; [exact Hout|].
    eapply Forall_impl; [exact Hgates|]. clear Hout Hgates.
    intros c (H1 & H2 & H3). q_reflect. split_and!; lra.
  - exact (detectClimbs_gates (num:=float) (trackOf (1 # 4) threeClimbProfile)).
Defined.

Lemma detectClimbs_short_witness :
  detectClimbs (num:=Q) (trackOf (1 # 4) shortProfile) = Some [] /\
  detectClimbs (num:=float) (trackOf (1 # 4) shortProfile) = Some [].
Proof.
  split; apply detectClimbs_short; vm_compute; lia.
Defined.


Lemma mergeNearbyClimbs_idempotent_witness :
  exists out,
    mergeNearbyClimbs fourCandidates = Some out /\
    mergeNearbyClimbs out = Some out.
Proof.
  apply mergeNearbyClimbs_idempotent.
  repeat constructor; unfold startLe; cbn; lra.
Defined.

Lemma detectClimbs_peak_after_end_witness :
  exists out,
    detectClimbs (num:=Q) (trackOf (1 # 4) singleClimbProfile) = Some out /\
    Forall (fun c : @ClimbSegment Q =>
      (endElevation c <= peakElevation c)%Q /\
      (endDistance c <= peakDistance c)%Q) out.
Proof.
  apply detectClimbs_peak_after_end, nonDecreasingb_sound.
  vm_compute. reflexivity.
Defined.


(** * Further properties of the code *)

(** ** Shape of the merger's result *)

Section MergerShape.

Context {num : Type} `{Number num}.
Local Open Scope num_scope.
Implicit Types (climbs merged kept : list (@ClimbSegment num))
               (c : @ClimbSegment num).

Lemma mergeOne_nonempty merged c : mergeOne merged c <> [].
Proof.
  unfold mergeOne.
  destruct merged as [|l merged _] using rev_ind; [done|].
  rewrite last_snoc, removelast_last.
  destruct (_ <? minDistanceBetweenClimbs); [destruct (ltb _ _)|];
    by intros [_ ?]%app_eq_nil.
Qed.

Lemma merge_fold_nonempty climbs merged :
  merged <> [] -> fold_left mergeOne climbs merged <> [].
Proof.
  revert merged. induction climbs as [|c climbs IH]; intros merged Hne; [done|].
  cbn. apply IH, mergeOne_nonempty.
Qed.

Lemma closePairs_zero_lookup (l : list (@ClimbSegment num)) :
  closePairs l = 0%nat ->
  forall i a b, l !! i = Some a -> l !! S i = Some b -> tooClose a b = false.
Proof.
  induction l as [|a0 l IH]; intros Hz i a b Ha Hb; [done|].
  destruct l as [|b0 l]; [by destruct i|].
  change (closePairs (a0 :: b0 :: l)) with
    ((if tooClose a0 b0 then 1 else 0) + closePairs (b0 :: l))%nat in Hz.
  destruct i as [|i]; cbn in Ha, Hb.
  - injection Ha as <-. injection Hb as <-.
    destruct (tooClose a0 b0); [lia|done].
  - apply (IH ltac:(lia) i); done.
Qed.

Lemma lookup_spaced_SpacedR (l : list (@ClimbSegment num)) :
  (forall i a b, l !! i = Some a -> l !! S i = Some b ->
     tooClose a b = false) ->
  SpacedR (rev l).
Proof.
  induction l as [|x l IH] using rev_ind; intros Hsp; [done|].
  rewrite rev_unit.
  destruct l as [|y l _] using rev_ind; [done|].
  rewrite rev_unit in *. split.
  - apply (Hsp (List.length l) y x).
    + rewrite <- app_assoc. by apply list_lookup_middle.
    + rewrite lookup_app_r; rewrite length_app; cbn; [|lia].
      by replace (S (List.length l) - (List.length l + 1))%nat with 0%nat by lia.
  - apply IH. intros i a b Ha Hb.
    apply (Hsp i); by apply lookup_app_l_Some.
Qed.

(** X5.  The merger never fails and never invents or reorders: what it
    returns is a subsequence of the candidates, so no longer than them, and
    it is empty only if there was no candidate. *)
Theorem mergeNearbyClimbs_subsequence climbs :
  exists out,
    mergeNearbyClimbs climbs = Some out /\
    out `sublist_of` climbs /\
    (List.length out <= List.length climbs)%nat /\
    (climbs <> [] -> out <> []).
Proof.
  exists (fold_left mergeOne climbs []).
  split; [apply merge_fold|]. split; [apply merge_sublist|].
  split; [apply sublist_length, merge_sublist|].
  destruct climbs as [|c climbs]; [done|]. intros _.
  cbn [fold_left]. apply merge_fold_nonempty, mergeOne_nonempty.
Qed.

End MergerShape.

(** ** The merger, in exact arithmetic *)

Section ExactMergerMore.

Local Open Scope Q_scope.
Implicit Types (climbs kept seen : list (@ClimbSegment Q)) (c : @ClimbSegment Q).

Lemma mergeOneR_dominated seen kept c :
  Dominated seen kept -> Dominated (seen ++ [c]) (mergeOneR kept c).
Proof.
  intros Hdom x Hx. unfold mergeOneR.
  destruct kept as [|l kept].
  { apply elem_of_app in Hx as [Hx| ->%list_elem_of_singleton].
    - destruct (Hdom x Hx) as (k & Hk & _). by apply elem_of_nil in Hk.
    - exists c. split; [apply list_elem_of_here|apply Qle_refl]. }
  destruct (tooClose l c); [destruct (ltb (score l) (score c)) eqn:Hsc|].
  - q_reflect. apply elem_of_app in Hx as [Hx| ->%list_elem_of_singleton].
    + destruct (Hdom x Hx) as (k & Hk & Hle).
      apply elem_of_cons in Hk as [->|Hk].
      * exists c. split; [apply list_elem_of_here|lra].
      * exists k. split; [by apply list_elem_of_further|done].
    + exists c. split; [apply list_elem_of_here|apply Qle_refl].
  - q_reflect. apply elem_of_app in Hx as [Hx| ->%list_elem_of_singleton].
    + by apply Hdom.
    + exists l. split; [apply list_elem_of_here|done].
  - apply elem_of_app in Hx as [Hx| ->%list_elem_of_singleton].
    + destruct (Hdom x Hx) as (k & Hk & Hle).
      exists k. split; [by apply list_elem_of_further|done].
    + exists c. split; [apply list_elem_of_here|apply Qle_refl].
Qed.

Lemma merge_foldR_dominated climbs seen kept :
  Dominated seen kept ->
  Dominated (seen ++ climbs) (fold_left mergeOneR climbs kept).
Proof.
  revert seen kept. induction climbs as [|c climbs IH]; intros seen kept Hdom.
  - by rewrite app_nil_r.
  - cbn. rewrite (cons_middle c seen climbs), app_assoc.
    by apply IH, mergeOneR_dominated.
Qed.

(** X7.  Nothing is lost to a weaker segment: for every candidate the merger
    keeps a segment whose score is at least the candidate's. *)
Theorem mergeNearbyClimbs_dominates climbs :
  exists out,
    mergeNearbyClimbs climbs = Some out /\
    forall c, c ∈ climbs -> exists k, k ∈ out /\ score c <= score k.
Proof.
  exists (fold_left mergeOne climbs []). split; [apply merge_fold|].
  intros c Hc. rewrite (merge_fold_rev climbs []).
  assert (Dominated ([] ++ climbs) (fold_left mergeOneR climbs [])) as Hdom.
  { apply merge_foldR_dominated. intros x Hx. by apply elem_of_nil in Hx. }
  destruct (Hdom c Hc) as (k & Hk & Hle).
  exists k. split; [|done].
  apply list_elem_of_In. apply -> in_rev. by apply list_elem_of_In.
Qed.

(** X6.  Candidates that are already at least 2 km apart, each from the one
    before it, are returned as they are: the merger drops or replaces nothing. *)
Theorem mergeNearbyClimbs_spaced_fixed climbs :
  (forall i a b, climbs !! i = Some a -> climbs !! S i = Some b ->
     2 <= startDistance b - endDistance a) ->
  mergeNearbyClimbs climbs = Some climbs.
Proof.
  intros Hsp. rewrite merge_fold. f_equal.
  rewrite <- (rev_involutive climbs).
  apply SpacedR_merge_fixed, lookup_spaced_SpacedR.
  intros i a b Ha Hb. specialize (Hsp i a b Ha Hb).
  unfold tooClose, minDistanceBetweenClimbs. q_reflect. lra.
Qed.

End ExactMergerMore.

(** ** The returned segments, in exact arithmetic *)

Section ExactOutput.

Local Open Scope Q_scope.
Implicit Types (points smoothed : list (@Point Q)) (c : @ClimbSegment Q).

Lemma categorizeClimb_positive (s : Q) :
  0 < s -> exists cat, categorizeClimb s = Some cat.
Proof.
  intros Hs. unfold categorizeClimb. cbn [lit leb ltb Q_Number].
  repeat (destruct (Qle_bool _ s); [by eexists|]).
  destruct (Qltb 0 s) eqn:Hlt; [by eexists|]. q_reflect. lra.
Qed.

Lemma Emitted_score_floor smoothed s i c :
  Emitted smoothed s i c -> 4.5 <= score c.
Proof.
  intros (ps & pi & peak & _ & _ & Hq & _ & ->).
  apply qualifies_gates in Hq as (Hlen & _ & Hgrad).
  cbn [score candidate lit sub mul div Q_Number].
  set (len := distance pi - distance ps) in *.
  set (g := (elevation pi - elevation ps) / (len * 1000) * 100) in *.
  nra.
Qed.

(** X2.  Every returned segment has a score of at least 4.5 (0.5 km at
    3 percent) and therefore a category: [null] never reaches the caller. *)
Theorem detectClimbs_categorized points :
  exists out,
    detectClimbs points = Some out /\
    Forall (fun c =>
      4.5 <= score c /\ exists cat, category c = Some cat) out.
Proof.
  destruct (detectClimbs_Emitted points) as (smoothed & out & _ & Hout & _ & Hem).
  exists out. split; [done|].
  eapply Forall_impl; [exact Hem|]. intros c (s & i & Hc).
  pose proof (Emitted_score_floor _ _ _ _ Hc) as Hfloor.
  split; [done|].
  destruct (Emitted_score _ _ _ _ Hc) as [-> _].
  apply categorizeClimb_positive. lra.
Qed.

End ExactOutput.

Section ExactOutputMore.

Local Open Scope Q_scope.
Implicit Types (points smoothed : list (@Point Q)) (c : @ClimbSegment Q).

(** X3.  The fields of a returned segment agree with one another: it
    starts and ends at samples of the track, the start before the end, with
    the smoothed elevations of these two samples; its length, gain, gradient,
    score and name are computed from them; and both the distance and the
    elevation strictly increase from start to end. *)
Theorem detectClimbs_consistent points :
  exists smoothed out,
    smoothElevationForClimbDetection points = Some smoothed /\
    detectClimbs points = Some out /\
    Forall (fun c =>
      (exists s i ps pi,
         (s < i)%nat /\
         smoothed !! s = Some ps /\ smoothed !! i = Some pi /\
         startDistance c = distance ps /\ startElevation c = elevation ps /\
         endDistance c = distance pi /\ endElevation c = elevation pi) /\
      length c = endDistance c - startDistance c /\
      elevationGain c = endElevation c - startElevation c /\
      averageGradient c = elevationGain c / (length c * 1000) * 100 /\
      score c = length c * (averageGradient c * averageGradient c) /\
      name c
      = generateClimbName (peakElevation c) (length c) (averageGradient c) /\
      startDistance c < endDistance c /\
      startElevation c < endElevation c) out.
Proof.
  destruct (detectClimbs_spec points) as (cands & b & Hcands & Hout).
  eexists _, _. split; [apply smooth_spec|]. split; [done|].
  apply Forall_forall. intros c Hc.
  apply (elem_of_sublist _ cands) in Hc; [|apply merge_sublist].
  apply Candidates_Forall in Hcands. rewrite Forall_forall in Hcands.
  destruct (Hcands c Hc) as (s & i & Hsi & ps & pi & peak & Hps & Hpi & Hq & _ & ->).
  apply qualifies_gates in Hq as (Hlen & Hgain & _).
  split_and!; try done.
  - by exists s, i, ps, pi.
  - cbn. lra.
  - cbn. lra.
Qed.

(** X4.  On distances that never decrease, each returned segment starts at
    least 2 km after the end of the one before it; in particular returned
    segments never overlap. *)
Theorem detectClimbs_apart points :
  NonDecreasing points ->
  exists out,
    detectClimbs points = Some out /\
    forall i a b, out !! i = Some a -> out !! S i = Some b ->
      2 <= startDistance b - endDistance a /\ endDistance a < startDistance b.
Proof.
  intros Hmono.
  destruct (detectClimbs_no_close_pairs points Hmono) as (out & Hout & _ & Hz).
  exists out. split; [done|]. intros i a b Ha Hb.
  pose proof (closePairs_zero_lookup out Hz i a b Ha Hb) as Hab.
  unfold tooClose, minDistanceBetweenClimbs in Hab. q_reflect. lra.
Qed.

End ExactOutputMore.

(** ** Tracks without climbs, and flat tracks under the smoother *)

Section NoCandidate.

Context {num : Type} `{Number num}.
Implicit Types (smoothed : list (@Point num)).

Lemma Candidates_none smoothed cs b :
  (forall s i ps pi, s < i ->
     smoothed !! s = Some ps -> smoothed !! i = Some pi ->
     qualifies ps pi = false) ->
  Candidates smoothed cs b -> cs = [].
Proof.
  intros Hno. destruct 1 as [|cs b s i c _ _ Hsi Hem]; [done|].
  destruct Hem as (ps & pi & peak & Hps & Hpi & Hq & _).
  rewrite (Hno s i ps pi Hsi Hps Hpi) in Hq. done.
Qed.

Lemma detectClimbs_none (points : list (@Point num)) :
  (forall s i ps pi, s < i ->
     imap (smoothedAt points) points !! s = Some ps ->
     imap (smoothedAt points) points !! i = Some pi ->
     qualifies ps pi = false) ->
  detectClimbs points = Some [].
Proof.
  intros Hno.
  destruct (detectClimbs_spec points) as (cands & b & Hcands & ->).
  by rewrite (Candidates_none _ _ _ Hno Hcands).
Qed.

Lemma noGainb_sound smoothed :
  noGainb smoothed = true ->
  forall s i ps pi, s < i ->
    smoothed !! s = Some ps -> smoothed !! i = Some pi ->
    leb minElevationGain (elevation pi - elevation ps)%num = false.
Proof.
  induction smoothed as [|start later IH]; [done|].
  cbn [noGainb]. intros [Hhd Htl]%andb_prop s i ps pi Hsi Hps Hpi.
  destruct i as [|i]; [lia|]. cbn in Hpi.
  destruct s as [|s]; [|apply (IH Htl s i); [lia|done..]].
  injection Hps as <-. unfold gainsBelow in Hhd.
  rewrite forallb_forall in Hhd.
  apply negb_true_iff, Hhd, list_elem_of_In. by eapply list_elem_of_lookup_2.
Qed.

(** X8.  A track of constant elevation [e] is returned unchanged by the
    smoother whenever the mean of seven values [e], as the smoother computes
    it, is [e] again; this holds in every arithmetic. *)
Theorem smoother_flat_fixed (points : list (@Point num)) (e : num) :
  Forall (fun p => elevation p = e) points ->
  meanOfEqual e = e ->
  smoothElevationForClimbDetection points = Some points.
Proof.
  intros Hflat Hmean. rewrite smooth_spec. f_equal.
  apply list_eq. intros i. rewrite list_lookup_imap.
  destruct (points !! i) as [p|] eqn:Hp; [|done].
  cbn. f_equal. unfold smoothedAt, interior.
  destruct (Nat.leb_spec 3 i); [|done].
  destruct (Nat.ltb_spec (i + 3) (List.length points)); [|done].
  cbn. rewrite (windowMean_flat points e), Hmean by done.
  rewrite Forall_lookup in Hflat. rewrite <- (Hflat i p Hp). by destruct p.
Qed.

(** X9.  A track has no climbs when none of its smoothed points lies 30 m
    or more above an earlier one, as the segmenter tests the gain, however
    steep its pairs of samples are; this holds in every arithmetic. *)
Theorem detectClimbs_no_gain (points smoothed : list (@Point num)) :
  smoothElevationForClimbDetection points = Some smoothed ->
  (forall s i ps pi, s < i ->
     smoothed !! s = Some ps -> smoothed !! i = Some pi ->
     leb minElevationGain (elevation pi - elevation ps)%num = false) ->
  detectClimbs points = Some [].
Proof.
  intros Hsm Hgain. rewrite smooth_spec in Hsm. injection Hsm as <-.
  apply detectClimbs_none. intros s i ps pi Hsi Hps Hpi.
  unfold qualifies. rewrite (Hgain s i ps pi Hsi Hps Hpi).
  by rewrite andb_false_r.
Qed.

End NoCandidate.

Section ExactShortTrack.

Local Open Scope Q_scope.
Implicit Types (points smoothed : list (@Point Q)) (p q : @Point Q).

(** X10.  On distances that never decrease, a track that covers less than
    0.5 km from its first to its last sample has no climbs. *)
Theorem detectClimbs_short_track points :
  NonDecreasing points ->
  (forall first final, points !! 0%nat = Some first ->
     last points = Some final ->
     distance final - distance first < 1 # 2) ->
  detectClimbs points = Some [].
Proof.
  intros Hmono Hshort. apply detectClimbs_none.
  intros s i ps pi Hsi. rewrite !list_lookup_imap.
  destruct (points !! s) as [p|] eqn:Hp; [|done].
  destruct (points !! i) as [q|] eqn:Hq; [|done].
  cbn. intros [= <-] [= <-]. rewrite last_lookup in Hshort.
  assert (i < List.length points)%nat as Hi by by eapply lookup_lt_Some.
  destruct (lookup_lt_is_Some_2 points 0) as [first Hfirst]; [lia|].
  destruct (lookup_lt_is_Some_2 points (pred (List.length points)))
    as [final Hfinal]; [lia|].
  specialize (Hshort first final Hfirst Hfinal).
  pose proof (NonDecreasing_le points 0 s first p Hmono ltac:(lia) Hfirst Hp).
  pose proof (NonDecreasing_le points i (pred (List.length points)) q final
                Hmono ltac:(lia) Hq Hfinal).
  unfold qualifies, minClimbLength. rewrite !smoothedAt_distance.
  cbn [lit sub leb Q_Number].
  destruct (Qle_bool 0.5 _) eqn:Hlen; [q_reflect; lra|done].
Qed.

End ExactShortTrack.

(** ** Names *)

Section Names.

Context {num : Type} `{Number num}.

(** X1.  Whatever the elevation, length and gradient, and in every
    arithmetic, the word of the generated name is one of Col, Mont, Montee
    and Cote as [climbTypes] spells them; the other six entries of
    [climbTypes] are never used. *)
Theorem generateClimbName_word (elevation length gradient : num) :
  nameType (generateClimbName elevation length gradient)
    ∈ ["Col"; "Mont"; "Montée"; "Côte"]%string /\
  nameType (generateClimbName elevation length gradient) ∈ climbTypes.
Proof.
  unfold generateClimbName, climbTypes. cbn [nameType].
  split; apply list_elem_of_In.
  all: destruct (ltb _ elevation); [cbn; tauto|].
  all: destruct (ltb _ elevation); [cbn; tauto|].
  all: destruct (ltb _ gradient); [cbn; tauto|].
  all: destruct (ltb _ length); cbn; tauto.
Qed.

End Names.

(** ** The track smoother of the GPX parser *)

Section TrackSmoother.

Context {num : Type} `{Number num}.
Local Open Scope num_scope.

Implicit Types (points : list (@GpxParser.ElevationPoint num))
               (p : @GpxParser.ElevationPoint num).

Lemma trackWindowSum_fold points count j sum :
  j + count <= List.length points ->
  GpxParser.windowSum points count j sum
  = Some (trackSum (take count (drop j points)) sum).
Proof.
  revert j sum. induction count as [|count IH]; intros j sum Hj.
  - by rewrite take_0.
  - destruct (lookup_lt_is_Some_2 points j) as [p Hp]; [lia|].
    cbn. rewrite Hp. cbn. rewrite IH by lia.
    by rewrite (drop_S _ _ _ Hp).
Qed.

Lemma trackSmoothStep_spec points k :
  5 <= k -> k + 5 < List.length points ->
  GpxParser.smoothStep points k (imap (trackSmoothedUpTo points k) points)
  = Some (imap (trackSmoothedUpTo points (S k)) points).
Proof.
  intros Hk Hn. unfold GpxParser.smoothStep, GpxParser.windowSize.
  replace (k + 5 + 1 - (k - 5))%nat with 11%nat by lia.
  rewrite trackWindowSum_fold by lia. cbn.
  destruct (lookup_lt_is_Some_2 points k) as [p Hp]; [lia|].
  rewrite Hp. cbn. f_equal. apply list_eq. intros i.
  rewrite list_lookup_insert, length_imap, !list_lookup_imap.
  destruct (decide (k = i ∧ k < List.length points)) as [[-> _]|Hne].
  - rewrite Hp. cbn. unfold trackSmoothedUpTo, trackInterior. by nat_cases.
  - destruct (points !! i) as [q|] eqn:Hq; [cbn|done].
    f_equal. unfold trackSmoothedUpTo, trackInterior.
    assert (i <> k) by (intros ->; apply Hne; split; [done|lia]).
    by nat_cases.
Qed.

Lemma trackSmoothedUpTo_start points :
  imap (trackSmoothedUpTo points 5) points = points.
Proof.
  apply list_eq. intros i. rewrite list_lookup_imap.
  destruct (points !! i) as [q|]; [cbn|done].
  f_equal. unfold trackSmoothedUpTo, trackInterior. by nat_cases.
Qed.

Lemma trackSmoothedUpTo_end points k :
  List.length points <= k + 5 ->
  imap (trackSmoothedUpTo points k) points
  = imap (trackSmoothedAt points) points.
Proof.
  intros Hk. apply list_eq. intros i. rewrite !list_lookup_imap.
  destruct (points !! i) as [q|]; [cbn|done].
  f_equal. unfold trackSmoothedUpTo, trackSmoothedAt, trackInterior.
  by nat_cases.
Qed.

(** The track smoother never fails, and its result is described index by
    index by [trackSmoothedAt]. *)
Lemma smoothElevationData_spec points :
  GpxParser.smoothElevationData points
  = Some (imap (trackSmoothedAt points) points).
Proof.
  unfold GpxParser.smoothElevationData.
  destruct (Nat.ltb_spec (List.length points) 3) as [Hn|Hn].
  - f_equal. rewrite <- (trackSmoothedUpTo_end points 5) by lia.
    by rewrite trackSmoothedUpTo_start.
  - destruct (forLoop_invariant
      (fun k sm => sm = imap (trackSmoothedUpTo points k) points)
      (GpxParser.smoothStep points)
      (List.length points - GpxParser.windowSize - GpxParser.windowSize)
      GpxParser.windowSize points) as (sm & Hsm & ->).
    + by rewrite trackSmoothedUpTo_start.
    + intros k t Hk ->. eexists. split; [|done].
      apply trackSmoothStep_spec; unfold GpxParser.windowSize in *; lia.
    + rewrite Hsm. f_equal. apply trackSmoothedUpTo_end.
      unfold GpxParser.windowSize. lia.
Qed.

Lemma trackSmoothedAt_distance points i p :
  GpxParser.distance (trackSmoothedAt points i p) = GpxParser.distance p.
Proof. unfold trackSmoothedAt. by destruct (trackInterior _ _). Qed.

End TrackSmoother.

Section ExactTrackSmoother.

Local Open Scope Q_scope.
Implicit Types (points smoothed : list (@GpxParser.ElevationPoint Q))
               (p q : @GpxParser.ElevationPoint Q).

Lemma trackSum_total (window : list (@GpxParser.ElevationPoint Q)) (sum : Q) :
  trackSum window sum == sum + total (GpxParser.elevation <$> window).
Proof.
  revert sum. induction window as [|p window IH]; intros sum.
  - cbn. ring.
  - change (trackSum window (sum + GpxParser.elevation p)
            == sum + (GpxParser.elevation p
                      + total (GpxParser.elevation <$> window))).
    rewrite IH. ring.
Qed.

Lemma trackWindow_length points i :
  (5 <= i)%nat -> (i + 5 < List.length points)%nat ->
  List.length (trackWindow points i) = 11%nat.
Proof.
  intros Hi Hn. unfold trackWindow. rewrite length_take, length_drop. lia.
Qed.

Lemma trackMean_mean points i :
  trackMean points i
  == total (GpxParser.elevation <$> trackWindow points i) / 11.
Proof.
  unfold trackMean. rewrite trackSum_total.
  change (ofNat GpxParser.windowSize) with 5. cbn [lit add mul div Q_Number].
  field.
Qed.

(** X11.  The track smoother returns an array of the same length.  A
    point with 5 samples on either side gets the mean of the 11 elevations
    centred on it; every other point passes through unchanged; distance,
    latitude and longitude are never touched.  Although the guard tests for
    fewer than 3 samples, every input of fewer than 11 comes back as it is. *)
Theorem smoothElevationData_contract points :
  exists smoothed,
    GpxParser.smoothElevationData points = Some smoothed /\
    List.length smoothed = List.length points /\
    (forall i p, points !! i = Some p ->
       (5 <= i)%nat -> (i + 5 < List.length points)%nat ->
       exists q, smoothed !! i = Some q /\
         List.length (trackWindow points i) = 11%nat /\
         trackWindow points i !! 5%nat = Some p /\
         GpxParser.elevation q
         == total (GpxParser.elevation <$> trackWindow points i) / 11) /\
    (forall i p, points !! i = Some p ->
       (i < 5 \/ List.length points <= i + 5)%nat ->
       smoothed !! i = Some p) /\
    (forall i p q, points !! i = Some p -> smoothed !! i = Some q ->
       GpxParser.distance q = GpxParser.distance p /\
       GpxParser.latitude q = GpxParser.latitude p /\
       GpxParser.longitude q = GpxParser.longitude p) /\
    ((List.length points < 11)%nat -> smoothed = points).
Proof.
  exists (imap (trackSmoothedAt points) points).
  split; [apply smoothElevationData_spec|]. split; [apply length_imap|].
  split_and!.
  - intros i p Hp Hi Hn. rewrite list_lookup_imap, Hp. cbn.
    eexists. split; [done|]. split; [by apply trackWindow_length|]. split.
    + unfold trackWindow. rewrite lookup_take_lt, lookup_drop by lia.
      by replace (i - 5 + 5)%nat with i by lia.
    + unfold trackSmoothedAt, trackInterior.
      destruct (Nat.leb_spec 5 i); [|lia].
      destruct (Nat.ltb_spec (i + 5) (List.length points)); [|lia].
      apply trackMean_mean.
  - intros i p Hp Hi. rewrite list_lookup_imap, Hp. cbn. f_equal.
    unfold trackSmoothedAt, trackInterior. by nat_cases.
  - intros i p q Hp. rewrite list_lookup_imap, Hp. cbn. intros [= <-].
    unfold trackSmoothedAt. by destruct (trackInterior _ _).
  - intros Hn. apply list_eq. intros i. rewrite list_lookup_imap.
    destruct (points !! i) as [p|] eqn:Hp; [cbn|done]. f_equal.
    unfold trackSmoothedAt, trackInterior. by nat_cases.
Qed.

Lemma NonDecreasing_track points :
  NonDecreasing (GpxParser.asPoint <$> points) ->
  NonDecreasing
    (GpxParser.asPoint <$> imap (trackSmoothedAt points) points).
Proof.
  intros Hmono i a b. rewrite !list_lookup_fmap, !list_lookup_imap.
  destruct (points !! i) as [p|] eqn:Hp; [|done].
  destruct (points !! S i) as [q|] eqn:Hq; [|done].
  cbn. intros [= <-] [= <-]. cbn. rewrite !trackSmoothedAt_distance.
  apply (Hmono i (GpxParser.asPoint p) (GpxParser.asPoint q));
    by rewrite list_lookup_fmap, ?Hp, ?Hq.
Qed.

(** X13.  The page runs [detectClimbs] on the points the parser smoothed.
    The track smoother keeps every distance, so when the distances read never
    decrease the pipeline never fails and the climbs it shows are strictly
    ordered by start distance, each starting at least 2 km after the end of
    the one before it. *)
Theorem page_climbs_ordered points :
  NonDecreasing (GpxParser.asPoint <$> points) ->
  exists smoothed out,
    GpxParser.smoothElevationData points = Some smoothed /\
    detectClimbs (GpxParser.asPoint <$> smoothed) = Some out /\
    StronglySorted startLt out /\
    forall i a b, out !! i = Some a -> out !! S i = Some b ->
      2 <= startDistance b - endDistance a.
Proof.
  intros Hmono. apply NonDecreasing_track in Hmono.
  destruct (detectClimbs_no_close_pairs _ Hmono) as (out & Hout & Hsorted & Hz).
  eexists _, out. split; [apply smoothElevationData_spec|].
  split; [done|]. split; [done|]. intros i a b Ha Hb.
  pose proof (closePairs_zero_lookup out Hz i a b Ha Hb) as Hab.
  unfold tooClose, minDistanceBetweenClimbs in Hab. q_reflect. lra.
Qed.

End ExactTrackSmoother.

(** ** The automatic labels of the page *)

Section ExactLabels.

Local Open Scope Q_scope.
Implicit Types (c : @ClimbSegment Q).

Lemma isSignificant_score c :
  category c = categorizeClimb (score c) ->
  Page.isSignificant c = Qle_bool 75 (score c).
Proof.
  intros Hcat. unfold Page.isSignificant, Page.categoryOf. rewrite Hcat.
  unfold categorizeClimb. cbn [lit leb ltb Q_Number].
  destruct (Qle_bool 600 _) eqn:H600.
  { destruct (Qle_bool 75 _) eqn:H75; [done|q_reflect; lra]. }
  destruct (Qle_bool 300 _) eqn:H300.
  { destruct (Qle_bool 75 _) eqn:H75; [done|q_reflect; lra]. }
  destruct (Qle_bool 150 _) eqn:H150.
  { destruct (Qle_bool 75 _) eqn:H75; [done|q_reflect; lra]. }
  destruct (Qle_bool 75 _) eqn:H75; [done|].
  by destruct (Qltb 0 _).
Qed.

(** X14.  The automatic labels of the page are the detected climbs with a
    score of at least 75 (category 3 and harder), in the order of the climbs;
    each sits at the peak of its climb and carries its name and category, has
    no custom position, and takes the identifier drawn at its position. *)
Theorem autoLabels_of_detected (freshId : nat -> string)
    (points : list (@Point Q)) :
  exists out,
    detectClimbs points = Some out /\
    map (fun l => (Page.distance l, Page.elevation l, Page.name l,
                   Page.category l))
        (Page.autoLabels freshId out)
    = map (fun c => (peakDistance c, peakElevation c, name c, category c))
          (List.filter (fun c => Qle_bool 75 (score c)) out) /\
    forall i l, Page.autoLabels freshId out !! i = Some l ->
      Page.id l = freshId i /\
      Page.customX l = None /\ Page.customY l = None.
Proof.
  destruct (detectClimbs_Emitted points) as (smoothed & out & _ & Hout & _ & Hem).
  exists out. split; [done|].
  assert (List.filter Page.isSignificant out
          = List.filter (fun c => Qle_bool 75 (score c)) out) as Hfilter.
  { apply List.filter_ext_in. intros c Hc%list_elem_of_In.
    rewrite Forall_forall in Hem. destruct (Hem c Hc) as (s & i & Hc').
    apply isSignificant_score. by destruct (Emitted_score _ _ _ _ Hc'). }
  unfold Page.autoLabels. rewrite Hfilter. split.
  - apply list_eq. intros i. change map with (@fmap list _).
    rewrite !list_lookup_fmap, list_lookup_imap.
    by destruct (_ !! i).
  - intros i l. rewrite list_lookup_imap.
    destruct (_ !! i); [|done]. cbn. by intros [= <-].
Qed.

End ExactLabels.

(** ** No read outside an array *)

Section Safety.

Context {num : Type} `{Number num}.

(** X15.  None of the array functions ever reads an element that is not
    there: the two smoothers, the merger and [detectClimbs] return a result
    on every input, whatever the numbers in it are. *)
Theorem array_reads_in_range :
  (forall points : list (@Point num),
     is_Some (smoothElevationForClimbDetection points)) /\
  (forall climbs : list (@ClimbSegment num),
     is_Some (mergeNearbyClimbs climbs)) /\
  (forall points : list (@Point num), is_Some (detectClimbs points)) /\
  (forall points : list (@GpxParser.ElevationPoint num),
     is_Some (GpxParser.smoothElevationData points)).
Proof.
  split_and!; intros l.
  - rewrite smooth_spec. by eexists.
  - rewrite merge_fold. by eexists.
  - apply detectClimbs_total.
  - rewrite smoothElevationData_spec. by eexists.
Qed.

End Safety.

(** ** Flat tracks under the track smoother *)

Section FlatTrack.

Context {num : Type} `{Number num}.
Local Open Scope num_scope.

Implicit Types (points : list (@GpxParser.ElevationPoint num))
               (p : @GpxParser.ElevationPoint num).

Lemma trackSum_flat (window : list (@GpxParser.ElevationPoint num)) e sum :
  Forall (fun p => GpxParser.elevation p = e) window ->
  trackSum window sum
  = Nat.iter (List.length window) (fun sum => sum + e) sum.
Proof.
  revert sum. induction window as [|p window IH]; intros sum Hflat; [done|].
  apply Forall_cons in Hflat as [Hp Hflat].
  cbn [List.length]. rewrite Nat.iter_succ_r, <- (IH _ Hflat).
  unfold trackSum. cbn. by rewrite Hp.
Qed.

Lemma trackMean_flat points e i :
  Forall (fun p => GpxParser.elevation p = e) points ->
  5 <= i -> i + 5 < List.length points ->
  trackMean points i = trackMeanOfEqual e.
Proof.
  intros Hflat Hi Hn. unfold trackMean, trackMeanOfEqual.
  rewrite (trackSum_flat _ e)
    by (unfold trackWindow; by apply Forall_take, Forall_drop).
  unfold trackWindow. rewrite length_take, length_drop.
  by replace (11 `min` (List.length points - (i - 5))) with 11 by lia.
Qed.

(** X12.  A track of constant elevation [e] is returned unchanged by the
    track smoother whenever the mean of eleven values [e], as the smoother
    computes it, is [e] again; this holds in every arithmetic. *)
Theorem smoothElevationData_flat_fixed points (e : num) :
  Forall (fun p => GpxParser.elevation p = e) points ->
  trackMeanOfEqual e = e ->
  GpxParser.smoothElevationData points = Some points.
Proof.
  intros Hflat Hmean. rewrite smoothElevationData_spec. f_equal.
  apply list_eq. intros i. rewrite list_lookup_imap.
  destruct (points !! i) as [p|] eqn:Hp; [|done].
  cbn. f_equal. unfold trackSmoothedAt, trackInterior, trackSmoothed.
  destruct (Nat.leb_spec 5 i); [|done].
  destruct (Nat.ltb_spec (i + 5) (List.length points)); [|done].
  cbn. rewrite (trackMean_flat points e), Hmean by done.
  rewrite Forall_lookup in Hflat. rewrite <- (Hflat i p Hp). by destruct p.
Qed.

End FlatTrack.

(** ** Runs and witnesses for the further properties *)

(** The undulating track has pairs of samples at 10 percent, so windows do
    open on it; none of them gains 30 m. *)
Example undulating_run :
  (exists p q, trackOf (num:=Q) (1 # 4) undulatingProfile !! 0%nat = Some p /\
     trackOf (num:=Q) (1 # 4) undulatingProfile !! 1%nat = Some q /\
     (3 < pairGradient p q)%Q) /\
  detectClimbs (num:=Q) (trackOf (1 # 4) undulatingProfile) = Some [].
Proof.
  split; [|vm_compute; reflexivity].
  eexists _, _. split; [reflexivity|]. split; [reflexivity|].
  vm_compute. reflexivity.
Qed.

(** The page pipeline on the track with three climbs: smoothed twice, the
    first two climbs are seen as one. *)
Example page_run :
  (smoothed ← GpxParser.smoothElevationData
                (gpxTrackOf (1 # 4) threeClimbProfile);
   map summary <$> detectClimbs (GpxParser.asPoint <$> smoothed))
  = Some [(7 # 4, 39 # 4, Some Cat2, 21 # 2, 46708 # 77);
          (77 # 4, 89 # 4, Some Cat4, 47 # 2, 720)]%Q.
Proof. vm_compute. reflexivity. Qed.

Lemma detectClimbs_apart_witness :
  exists out,
    detectClimbs (num:=Q) (trackOf (1 # 4) threeClimbProfile) = Some out /\
    forall i a b, out !! i = Some a -> out !! S i = Some b ->
      (2 <= startDistance b - endDistance a)%Q /\
      (endDistance a < startDistance b)%Q.
Proof.
  apply detectClimbs_apart, nonDecreasingb_sound. vm_compute. reflexivity.
Defined.

Lemma mergeNearbyClimbs_spaced_fixed_witness :
  mergeNearbyClimbs spacedCandidates = Some spacedCandidates.
Proof.
  apply mergeNearbyClimbs_spaced_fixed.
  intros [|[|[|i]]] a b Ha Hb; try done;
    injection Ha as <-; injection Hb as <-; cbn; lra.
Defined.

Lemma detectClimbs_no_gain_witness :
  detectClimbs (num:=float) (trackOf (1 # 4) undulatingProfile) = Some [] /\
  detectClimbs (num:=Q) (trackOf (1 # 4) undulatingProfile) = Some [].
Proof.
  split.
  - apply (detectClimbs_no_gain _ (imap (smoothedAt _) _) (smooth_spec _)).
    apply noGainb_sound. vm_compute. reflexivity.
  - apply (detectClimbs_no_gain _ (imap (smoothedAt _) _) (smooth_spec _)).
    apply noGainb_sound. vm_compute. reflexivity.
Defined.

Lemma smoother_flat_fixed_witness :
  smoothElevationForClimbDetection (num:=float) (trackOf (1 # 4) flatProfile)
  = Some (trackOf (1 # 4) flatProfile).
Proof.
  apply (smoother_flat_fixed _ (lit 250)).
  - vm_compute. repeat constructor.
  - vm_compute. reflexivity.
Defined.

Lemma smoothElevationData_flat_fixed_witness :
  GpxParser.smoothElevationData (num:=float) (gpxFlatTrack 30 250)
  = Some (gpxFlatTrack 30 250).
Proof.
  apply (smoothElevationData_flat_fixed _ (lit 250)).
  - vm_compute. repeat constructor.
  - vm_compute. reflexivity.
Defined.

Lemma detectClimbs_short_track_witness :
  detectClimbs (num:=Q) (trackOf (1 # 25) steepShortProfile) = Some [].
Proof.
  apply detectClimbs_short_track.
  - apply nonDecreasingb_sound. vm_compute. reflexivity.
  - intros first final Hfirst Hfinal. vm_compute in Hfirst, Hfinal.
    injection Hfirst as <-. injection Hfinal as <-. vm_compute. reflexivity.
Defined.

Lemma page_climbs_ordered_witness :
  exists smoothed out,
    GpxParser.smoothElevationData (gpxTrackOf (1 # 4) threeClimbProfile)
    = Some smoothed /\
    detectClimbs (GpxParser.asPoint <$> smoothed) = Some out /\
    StronglySorted startLt out /\
    forall i a b, out !! i = Some a -> out !! S i = Some b ->
      (2 <= startDistance b - endDistance a)%Q.
Proof.
  apply page_climbs_ordered, nonDecreasingb_sound. vm_compute. reflexivity.
Defined.

(** The condition on the computed mean is needed: in binary64 the mean of
    seven, or of eleven, values 0.1 is computed as another number, and the
    smoother changes the middle sample of a flat track of 7 samples at
    0.1 m. *)
Example flat_mean_rounding :
  PrimFloat.eqb (meanOfEqual (num:=float) (lit (1 # 10))) (lit (1 # 10))
  = false /\
  PrimFloat.eqb (trackMeanOfEqual (num:=float) (lit (1 # 10))) (lit (1 # 10))
  = false /\
  (smoothed ← smoothElevationForClimbDetection (num:=float)
                (trackOf (1 # 4) (ramp 7 (1 # 10) 0));
   p ← smoothed !! 3%nat;
   Some (PrimFloat.eqb (elevation p) (lit (1 # 10))))
  = Some false.
Proof. vm_compute. done. Qed.
